(** * Stochastic-CFLP: the instance reader [data.py] and the driver [main.py]

    A shallow embedding of the two Python modules of the repository,

      - [data.py]: the [Data] dataclass, the token generator [word_reader],
        the scenario sampler [generate_scenarios] and the parser
        [read_dataset];
      - [main.py]: the script that reads an instance, hands it to
        [solve_stochastic_cflp] and reports the solution;

    followed by the properties of the specification that concern them.

    Conventions of the embedding.

      - Python exceptions are values of [exn]; a computation that can raise
        returns [exn + A], a computation that also advances an iterator or
        the random generator is a function [St -> exn + A * St].
      - A Python [int] is a [Z].  A Python [float] and a numpy [float64] are
        IEEE-754 binary64 numbers, [spec_float] at precision 53 and
        exponent bound 1024, with the operations of [SpecFloat].
      - A one-dimensional numpy array of floats, or of the integers of
        [np.arange], is the list of its entries.  An array built from a
        list of Python integers is an [int_array]: the element type numpy
        finds for it (on a 64-bit platform) and its entries as stored.
        An array that may have two dimensions is an [ndarray]: its shape
        and its entries in C (row-major) order.
      - The text of a file is a [string] of ASCII characters; opening the
        file is taken to succeed.
      - What [print] writes is not modelled; what a run prints is read off
        the values it computes.
      - numpy is the modern one (1.17 and later): [np.random.normal]
        refuses a scale whose sign bit is set, and the sampler is the
        legacy one of [np.random], [loc + scale * z] for a standard
        normal variate [z] of the global generator. *)

From Stdlib Require Import ZArith List String Ascii Bool Lia.
From Stdlib Require Import SpecFloat.
From stdpp Require Import base gmap.

Import ListNotations.
Local Open Scope Z_scope.

(* ===================================================================== *)
(** * Python: exceptions and the evaluation monad                        *)
(* ===================================================================== *)

Module Py.

(** The exceptions the two modules can raise. *)
Inductive exn : Type :=
  | StopIteration       (* next() on an exhausted generator           *)
  | ValueError          (* int(), float(), max(), reshape, normal     *)
  | IndexError          (* a[i, j] out of bounds                      *)
  | KeyError            (* d[k] on a missing key                      *)
  | FrozenInstanceError (* assignment to a field of a frozen dataclass *).

Definition result (A : Type) : Type := (exn + A)%type.

(** A computation over a piece of state [St] (the token generator, the
    global random generator) that may raise. *)
Definition M (St A : Type) : Type := St -> result (A * St).

Definition ret {St A} (a : A) : M St A := fun st => inr (a, st).

Definition raise {St A} (e : exn) : M St A := fun _ => inl e.

Definition bind {St A B} (c : M St A) (k : A -> M St B) : M St B :=
  fun st => match c st with
            | inl e => inl e
            | inr (a, st') => k a st'
            end.

(** A pure computation that may raise, run inside [M]. *)
Definition lift {St A} (r : result A) : M St A :=
  fun st => match r with
            | inl e => inl e
            | inr a => inr (a, st)
            end.

Definition rbind {A B} (r : result A) (k : A -> result B) : result B :=
  match r with
  | inl e => inl e
  | inr a => k a
  end.

Declare Scope py_scope.
Delimit Scope py_scope with py.

Notation "'let*' x ':=' c 'in' k" := (bind c (fun x => k))
  (at level 10, x name, c at level 100, k at level 200) : py_scope.
Notation "'let*' ' p ':=' c 'in' k" :=
  (bind c (fun x => match x with p => k end))
  (at level 10, p pattern, c at level 100, k at level 200) : py_scope.

(** [[c for _ in range(n)]]: run [c] [n] times, left to right. *)
Fixpoint replicateM {St A} (n : nat) (c : M St A) : M St (list A) :=
  match n with
  | O => ret []
  | Datatypes.S n' =>
      (let* x := c in let* xs := replicateM n' c in ret (x :: xs))%py
  end.

(** [[f x for x in xs]]: run [f] on each element, left to right. *)
Fixpoint forM {St A B} (xs : list A) (f : A -> M St B) : M St (list B) :=
  match xs with
  | [] => ret []
  | x :: xs' =>
      (let* y := f x in let* ys := forM xs' f in ret (y :: ys))%py
  end.

(** The same for a pure body that may raise. *)
Fixpoint mapR {A B} (f : A -> result B) (xs : list A) : result (list B) :=
  match xs with
  | [] => inr []
  | x :: xs' =>
      rbind (f x) (fun y => rbind (mapR f xs') (fun ys => inr (y :: ys)))
  end.

(** [range(n)] has [max(n, 0)] elements. *)
Definition range_len (n : Z) : nat := Z.to_nat n.

Definition range (n : Z) : list Z := map Z.of_nat (seq 0 (range_len n)).

(* --------------------------------------------------------------------- *)
(** ** Strings: [str.isspace], [str.split] and line iteration            *)
(* --------------------------------------------------------------------- *)

(** ASCII characters for which [str.isspace] holds: TAB, LF, VT, FF, CR,
    the separators FS, GS, RS, US, and the space. *)
Definition isspace (c : ascii) : bool :=
  let n := nat_of_ascii c in
  ((9 <=? n)%nat && (n <=? 13)%nat) || ((28 <=? n)%nat && (n <=? 32)%nat).

Definition LF : ascii := ascii_of_nat 10.
Definition CR : ascii := ascii_of_nat 13.

(** The word collected so far, if any. *)
Definition emit (w : string) : list string :=
  match w with
  | EmptyString => []
  | _ => [w]
  end.

Definition snoc (w : string) (c : ascii) : string :=
  (w ++ String c EmptyString)%string.

(** [split_from w s]: the words of [s], the first one continuing [w]. *)
Fixpoint split_from (w s : string) : list string :=
  match s with
  | EmptyString => emit w
  | String c s' =>
      if isspace c then emit w ++ split_from EmptyString s'
      else split_from (snoc w c) s'
  end.

(** [s.split()]: the maximal runs of non-whitespace characters. *)
Definition split (s : string) : list string := split_from EmptyString s.

(** Iteration over a file opened in text mode (universal newlines): a line
    ends after LF, after CR, or after the pair CR LF, and the terminator is
    delivered as a single LF.  [after_cr] records that the previous
    character was a CR that already closed a line. *)
Fixpoint lines_from (after_cr : bool) (cur s : string) : list string :=
  match s with
  | EmptyString => emit cur
  | String c s' =>
      if Ascii.eqb c LF then
        if after_cr then lines_from false cur s'
        else snoc cur LF :: lines_from false EmptyString s'
      else if Ascii.eqb c CR then
        snoc cur LF :: lines_from true EmptyString s'
      else lines_from false (snoc cur c) s'
  end.

Definition file_lines (text : string) : list string :=
  lines_from false EmptyString text.


(* --------------------------------------------------------------------- *)
(** ** Numbers: [int()] and [float()] on a token                         *)
(* --------------------------------------------------------------------- *)

(** Binary64. *)
Definition float : Type := spec_float.

Definition prec : Z := 53.
Definition emax : Z := 1024.

Definition fzero : float := S754_zero false.

Definition fadd : float -> float -> float := SFadd prec emax.
Definition fmul : float -> float -> float := SFmul prec emax.
Definition fdiv : float -> float -> float := SFdiv prec emax.
Definition flt : float -> float -> bool := SFltb.
Definition fle : float -> float -> bool := SFleb.

Definition isnan (x : float) : bool :=
  match x with
  | S754_nan => true
  | _ => false
  end.

(** The sign bit; a NaN is reported without one. *)
Definition signbit (x : float) : bool :=
  match x with
  | S754_zero s | S754_infinity s | S754_finite s _ _ => s
  | S754_nan => false
  end.

Definition digit_of (c : ascii) : option Z :=
  let n := nat_of_ascii c in
  if ((48 <=? n)%nat && (n <=? 57)%nat)%bool
  then Some (Z.of_nat (n - 48)) else None.

(** [(["_"] digit)*]: the digits read and what follows them. *)
Fixpoint digitpart_tail (s : string) : list Z * string :=
  match s with
  | EmptyString => ([], s)
  | String c s' =>
      match digit_of c with
      | Some d => let (ds, r) := digitpart_tail s' in (d :: ds, r)
      | None =>
          if Ascii.eqb c "_" then
            match s' with
            | String c' s'' =>
                match digit_of c' with
                | Some d => let (ds, r) := digitpart_tail s'' in (d :: ds, r)
                | None => ([], s)
                end
            | EmptyString => ([], s)
            end
          else ([], s)
      end
  end.

(** [digitpart ::= digit (["_"] digit)*]. *)
Definition digitpart (s : string) : option (list Z * string) :=
  match s with
  | String c s' =>
      match digit_of c with
      | Some d => let (ds, r) := digitpart_tail s' in Some (d :: ds, r)
      | None => None
      end
  | EmptyString => None
  end.

Definition digits_value (ds : list Z) : Z :=
  fold_left (fun a d => 10 * a + d) ds 0.

(** An optional sign: [true] for "-". *)
Definition sign (s : string) : bool * string :=
  match s with
  | String c s' =>
      if Ascii.eqb c "-" then (true, s')
      else if Ascii.eqb c "+" then (false, s')
      else (false, s)
  | EmptyString => (false, s)
  end.

(** [int(tok)], base ten: an optional sign and a [digitpart]. *)
Definition int (tok : string) : result Z :=
  let (neg, s) := sign tok in
  match digitpart s with
  | Some (ds, EmptyString) =>
      inr (if neg then - digits_value ds else digits_value ds)
  | _ => inl ValueError
  end.

Definition lower (c : ascii) : ascii :=
  let n := nat_of_ascii c in
  if ((65 <=? n)%nat && (n <=? 90)%nat)%bool then ascii_of_nat (n + 32) else c.

Fixpoint lowercase (s : string) : string :=
  match s with
  | EmptyString => EmptyString
  | String c s' => String (lower c) (lowercase s')
  end.

(** [number ::= [digitpart] "." digitpart | digitpart ["."]]: the digits
    before and after the point, and what follows. *)
Definition number (s : string) : option (list Z * list Z * string) :=
  match digitpart s with
  | Some (ip, String c r) =>
      if Ascii.eqb c "." then
        match digitpart r with
        | Some (fp, r') => Some (ip, fp, r')
        | None => Some (ip, [], r)
        end
      else Some (ip, [], String c r)
  | Some (ip, EmptyString) => Some (ip, [], EmptyString)
  | None =>
      match s with
      | String c r =>
          if Ascii.eqb c "." then
            match digitpart r with
            | Some (fp, r') => Some ([], fp, r')
            | None => None
            end
          else None
      | EmptyString => None
      end
  end.

(** [exponent ::= ("e" | "E") [sign] digitpart], optional. *)
Definition exponent (s : string) : option (Z * string) :=
  match s with
  | String c r =>
      if Ascii.eqb (lower c) "e" then
        let (neg, r1) := sign r in
        match digitpart r1 with
        | Some (ds, r2) =>
            Some (if neg then - digits_value ds else digits_value ds, r2)
        | None => None
        end
      else Some (0, s)
  | EmptyString => Some (0, s)
  end.

(** The binary64 number nearest to [(-1)^neg * d * 10^e] (ties to even). *)
Definition decimal_to_float (neg : bool) (d e : Z) : float :=
  match d with
  | Zpos p =>
      if 0 <=? e
      then binary_normalize prec emax
             ((if neg then -1 else 1) * (d * 10 ^ e)) 0 false
      else fdiv (S754_finite neg p 0)
                (S754_finite false (Z.to_pos (10 ^ (- e))) 0)
  | _ => S754_zero neg
  end.

(** [float(tok)]: a signed decimal number with an optional exponent, or a
    signed "inf", "infinity" or "nan" in any letter case. *)
Definition float_of_str (tok : string) : result float :=
  let (neg, s) := sign tok in
  let l := lowercase s in
  if (String.eqb l "inf" || String.eqb l "infinity")%bool
  then inr (S754_infinity neg)
  else if String.eqb l "nan" then inr S754_nan
  else
    match number s with
    | Some (ip, fp, r) =>
        match exponent r with
        | Some (e, EmptyString) =>
            inr (decimal_to_float neg (digits_value (ip ++ fp))
                   (e - Z.of_nat (length fp)))
        | _ => inl ValueError
        end
    | None => inl ValueError
    end.


(* --------------------------------------------------------------------- *)
(** ** The builtins [sum] and [max]                                      *)
(* --------------------------------------------------------------------- *)

(** [sum(xs)]: the entries added to the start value 0 from left to right.
    The integer 0 plus a float is that float added to +0.0. *)
Definition sum (xs : list float) : float := fold_left fadd xs fzero.

(** [max(xs)] over an iterable: the first entry, replaced by each later
    entry that compares greater; [ValueError] on an empty iterable. *)
Definition max (xs : list float) : result float :=
  match xs with
  | [] => inl ValueError
  | x :: xs' => inr (fold_left (fun m y => if flt m y then y else m) xs' x)
  end.

(** [max(0, x)]: [x] when [x > 0], else the integer 0, which a float array
    stores as +0.0. *)
Definition max0 (x : float) : float := if flt fzero x then x else fzero.

End Py.

(* ===================================================================== *)
(** * numpy: arrays and the normal sampler                               *)
(* ===================================================================== *)

Module Np.
Import Py.

(** An array of any number of dimensions: its shape and its entries in
    row-major order. *)
Record ndarray (A : Type) : Type := mk_ndarray {
  shape : list nat;
  flat : list A
}.
Arguments mk_ndarray {A} _ _.
Arguments shape {A} _.
Arguments flat {A} _.

(** [np.array(rows)] on a list of lists of numbers.  The empty list gives
    the one-dimensional array of shape (0,); rows of one length [c] give
    shape (len(rows), c); rows of different lengths are refused. *)
Definition array {A} (rows : list (list A)) : result (ndarray A) :=
  match rows with
  | [] => inr (mk_ndarray [0%nat] [])
  | r :: rs =>
      if forallb (fun r' => Nat.eqb (length r') (length r)) rs
      then inr (mk_ndarray [length rows; length r] (concat rows))
      else inl ValueError
  end.

(** The element type of an array built from Python integers: an integer
    that fits is a signed 64-bit one, a larger one below 2^64 an unsigned
    64-bit one, any other is kept as a Python object. *)
Inductive element_type : Type := int64 | uint64 | float64 | object.

Definition discover (z : Z) : element_type :=
  if ((- 2 ^ 63 <=? z) && (z <? 2 ^ 63))%bool then int64
  else if ((2 ^ 63 <=? z) && (z <? 2 ^ 64))%bool then uint64
  else object.

(** [np.promote_types]: signed beside unsigned 64-bit integers are
    floats, and an object beside anything is an object. *)
Definition promote_types (a b : element_type) : element_type :=
  match a, b with
  | object, _ | _, object => object
  | float64, _ | _, float64 => float64
  | int64, int64 => int64
  | uint64, uint64 => uint64
  | int64, uint64 | uint64, int64 => float64
  end.

(** The element type of [np.array(xs)]: that of all entries together, and
    [float64] for the empty list. *)
Definition result_type (xs : list Z) : element_type :=
  match xs with
  | [] => float64
  | x :: xs' =>
      fold_left (fun t y => promote_types t (discover y)) xs' (discover x)
  end.

(** What an array stores: an integer, kept exactly, or a float. *)
Inductive scalar : Type :=
  | int_item (z : Z)
  | float_item (x : float).

(** [float(z)]: the binary64 number nearest to [z] (ties to even). *)
Definition float_of_int (z : Z) : float := binary_normalize prec emax z 0 false.

(** The integer [z] as an array of element type [t] stores it. *)
Definition cast (t : element_type) (z : Z) : scalar :=
  match t with
  | float64 => float_item (float_of_int z)
  | _ => int_item z
  end.

Record int_array : Type := mk_int_array {
  dtype : element_type;
  items : list scalar
}.

(** [np.array(xs)] on a list of Python integers. *)
Definition array_int (xs : list Z) : int_array :=
  let t := result_type xs in mk_int_array t (map (cast t) xs).

(** [np.arange(n)]: the integers 0, ..., n-1 (none when [n <= 0]). *)
Definition arange (n : Z) : list Z := range n.

(** [a.reshape(m, n)] on a one-dimensional array [a].  A negative
    dimension stands for the unknown one and is inferred from the size;
    two of them, an unknown beside a zero, or a size that does not fit
    are refused. *)
Definition reshape {A} (a : list A) (m n : Z) : result (ndarray A) :=
  let size := Z.of_nat (length a) in
  if ((m <? 0) && (n <? 0))%bool then inl ValueError
  else if m <? 0 then
    if ((n =? 0) || negb (size mod n =? 0))%bool then inl ValueError
    else inr (mk_ndarray [Z.to_nat (size / n); Z.to_nat n] a)
  else if n <? 0 then
    if ((m =? 0) || negb (size mod m =? 0))%bool then inl ValueError
    else inr (mk_ndarray [Z.to_nat m; Z.to_nat (size / m)] a)
  else if size =? m * n then inr (mk_ndarray [Z.to_nat m; Z.to_nat n] a)
  else inl ValueError.

Definition option_list {A} (o : option A) : list A :=
  match o with
  | Some x => [x]
  | None => []
  end.

(** [np.transpose(a)]: the axes reversed.  Entry (j, i) of the result is
    entry (i, j) of [a]; an array of fewer than two dimensions is
    unchanged.  (No array of more than two dimensions occurs.) *)
Definition transpose {A} (a : ndarray A) : ndarray A :=
  match shape a with
  | [r; c] =>
      mk_ndarray [c; r]
        (flat_map (fun j =>
           flat_map (fun i => option_list (nth_error (flat a) (i * c + j)))
                    (seq 0 r))
           (seq 0 c))
  | _ => a
  end.

(** An index [i] into an axis of length [n]: negative indices count from
    the end. *)
Definition axis_index (n : nat) (i : Z) : result nat :=
  if ((0 <=? i) && (i <? Z.of_nat n))%bool then inr (Z.to_nat i)
  else if ((- Z.of_nat n <=? i) && (i <? 0))%bool
       then inr (Z.to_nat (i + Z.of_nat n))
  else inl IndexError.

(** [a[i, j]]: two indices need a two-dimensional array. *)
Definition getitem2 {A} (a : ndarray A) (i j : Z) : result A :=
  match shape a with
  | [r; c] =>
      rbind (axis_index r i) (fun i' =>
      rbind (axis_index c j) (fun j' =>
        match nth_error (flat a) (i' * c + j') with
        | Some x => inr x
        | None => inl IndexError
        end))
  | _ => inl IndexError
  end.

(** The global generator behind [np.random]: a state [G] and the draw of
    one normal variate with a given location and scale. *)
Class RandomState (G : Type) : Type := {
  draw_normal : G -> float -> float -> float * G
}.

(** [np.random.normal(loc, scale)]: a scale with its sign bit set (and
    not a NaN) is refused with "scale < 0" before anything is drawn. *)
Definition random_normal {G} `{RandomState G} (loc scale : float) : M G float :=
  fun g =>
    if (negb (isnan scale) && signbit scale)%bool then inl ValueError
    else inr (draw_normal g loc scale).

(** The generator as numpy implements the draw: [loc + scale * z] for the
    next standard normal variate [z] of the underlying stream. *)
Record gauss_stream : Type := mk_gauss_stream {
  variates : nat -> float;
  cursor : nat
}.

#[export] Instance gauss_stream_random : RandomState gauss_stream := {
  draw_normal g loc scale :=
    (fadd loc (fmul scale (variates g (cursor g))),
     mk_gauss_stream (variates g) (Datatypes.S (cursor g)))
}.

End Np.

(* ===================================================================== *)
(** * data.py                                                            *)
(* ===================================================================== *)

(** The dataclass [Data] (lines 6-16).  Its field names are kept; they
    live in a module of their own because [I] and [S] are also names of
    the prelude. *)
Module Data.
Import Py Np.

Record t : Type := mk {
  I : list Z;                           (* Customer index list  *)
  J : list Z;                           (* Facility index list  *)
  S : list Z;                           (* Scenario index list  *)
  demands : list float;                 (* Customer demands     *)
  scenarios : ndarray float;            (* Demand Scenarios     *)
  capacities : int_array;               (* Facility capacities  *)
  fixed_costs : int_array;              (* Facility opening costs *)
  shipment_costs : ndarray float;       (* Transportation costs *)
  max_demand_sum_over_scenario : float  (* maximum of demand sums *)
}.

(** The decorator is a bare [@dataclass]: the class is not frozen. *)
Definition frozen : bool := false.

(** The fields, and the values an assignment can store in each. *)
Inductive field : Type :=
  | f_I | f_J | f_S | f_demands | f_scenarios | f_capacities
  | f_fixed_costs | f_shipment_costs | f_max_demand_sum_over_scenario.

Definition value (f : field) : Type :=
  match f with
  | f_I | f_J | f_S => list Z
  | f_capacities | f_fixed_costs => int_array
  | f_demands => list float
  | f_scenarios | f_shipment_costs => ndarray float
  | f_max_demand_sum_over_scenario => float
  end.

Definition getattr (d : t) (f : field) : value f :=
  match f with
  | f_I => I d
  | f_J => J d
  | f_S => S d
  | f_demands => demands d
  | f_scenarios => scenarios d
  | f_capacities => capacities d
  | f_fixed_costs => fixed_costs d
  | f_shipment_costs => shipment_costs d
  | f_max_demand_sum_over_scenario => max_demand_sum_over_scenario d
  end.

Definition store (d : t) (f : field) : value f -> t :=
  match f with
  | f_I => fun v =>
      mk v (J d) (S d) (demands d) (scenarios d) (capacities d)
         (fixed_costs d) (shipment_costs d) (max_demand_sum_over_scenario d)
  | f_J => fun v =>
      mk (I d) v (S d) (demands d) (scenarios d) (capacities d)
         (fixed_costs d) (shipment_costs d) (max_demand_sum_over_scenario d)
  | f_S => fun v =>
      mk (I d) (J d) v (demands d) (scenarios d) (capacities d)
         (fixed_costs d) (shipment_costs d) (max_demand_sum_over_scenario d)
  | f_demands => fun v =>
      mk (I d) (J d) (S d) v (scenarios d) (capacities d)
         (fixed_costs d) (shipment_costs d) (max_demand_sum_over_scenario d)
  | f_scenarios => fun v =>
      mk (I d) (J d) (S d) (demands d) v (capacities d)
         (fixed_costs d) (shipment_costs d) (max_demand_sum_over_scenario d)
  | f_capacities => fun v =>
      mk (I d) (J d) (S d) (demands d) (scenarios d) v
         (fixed_costs d) (shipment_costs d) (max_demand_sum_over_scenario d)
  | f_fixed_costs => fun v =>
      mk (I d) (J d) (S d) (demands d) (scenarios d) (capacities d)
         v (shipment_costs d) (max_demand_sum_over_scenario d)
  | f_shipment_costs => fun v =>
      mk (I d) (J d) (S d) (demands d) (scenarios d) (capacities d)
         (fixed_costs d) v (max_demand_sum_over_scenario d)
  | f_max_demand_sum_over_scenario => fun v =>
      mk (I d) (J d) (S d) (demands d) (scenarios d) (capacities d)
         (fixed_costs d) (shipment_costs d) v
  end.

(** [d.f = v]: a frozen dataclass raises, any other stores the value. *)
Definition setattr (d : t) (f : field) (v : value f) : result t :=
  if frozen then inl FrozenInstanceError else inr (store d f v).

End Data.

Module DataPy.
Import Py Np.
Local Open Scope py_scope.

(** [word_reader(file_path)]: the words of each line, line after line.
    The generator is the list of the words it has yet to yield. *)
Definition word_reader (text : string) : list string :=
  flat_map split (file_lines text).

(** [next(word)]. *)
Definition next : M (list string) string :=
  fun words =>
    match words with
    | [] => inl StopIteration
    | w :: rest => inr (w, rest)
    end.

(** [generate_scenarios(demands, num_scenarios, variance_factor)]
    (lines 26-43): row after row, one clamped draw per demand.  The
    fourth parameter, [method], is not used by the function. *)
Definition generate_scenarios {G} `{RandomState G}
    (demands : list float) (num_scenarios : Z) (variance_factor : float)
    : M G (ndarray float) :=
  let* rows :=
    replicateM (range_len num_scenarios)
      (forM demands (fun mu =>
         let* x := random_normal mu (fmul variance_factor mu) in
         ret (max0 x))) in
  lift (array rows).

(** The default arguments [num_scenarios=10] and [variance_factor=0.2]. *)
Definition default_num_scenarios : Z := 10.
Definition default_variance_factor : float :=
  S754_finite false 7205759403792794 (-55).

(** [read_dataset] runs over two pieces of state: the word generator and
    the random generator. *)
Definition on_words {G A} (c : M (list string) A) : M (list string * G) A :=
  fun st =>
    match c (fst st) with
    | inl e => inl e
    | inr (a, words) => inr (a, (words, snd st))
    end.

Definition on_random {G A} (c : M G A) : M (list string * G) A :=
  fun st =>
    match c (snd st) with
    | inl e => inl e
    | inr (a, g) => inr (a, (fst st, g))
    end.

(** [read_dataset(file_path, num_scenarios, variance_factor)]
    (lines 45-112), on the text of the file. *)
Definition read_dataset {G} `{RandomState G}
    (text : string) (num_scenarios : Z) (variance_factor : float)
    : M G Data.t :=
  fun g =>
    let body : M (list string * G) Data.t :=
      (* Read the number of facilities and customers *)
      let* num_facilities := on_words (let* w := next in lift (int w)) in
      let* num_customers := on_words (let* w := next in lift (int w)) in
      (* Read facility capacities and fixed costs *)
      let* facilities :=
        on_words (replicateM (range_len num_facilities)
          (let* w1 := next in let* capacity := lift (int w1) in
           let* w2 := next in let* fixed_cost := lift (int w2) in
           ret (capacity, fixed_cost))) in
      let capacities := map fst facilities in
      let fixed_costs := map snd facilities in
      let* demands :=
        on_words (replicateM (range_len num_customers)
          (let* w := next in lift (float_of_str w))) in
      (* Read transportation costs as an m x n matrix *)
      let* costs :=
        on_words (replicateM (range_len (num_facilities * num_customers))
          (let* w := next in lift (float_of_str w))) in
      let* shipment_costs := lift (reshape costs num_facilities num_customers) in
      let shipment_costs := transpose shipment_costs in
      let I := arange num_customers in
      let J := arange num_facilities in
      let S := arange num_scenarios in
      let capacities := array_int capacities in
      let fixed_costs := array_int fixed_costs in
      (* Generate demand scenarios *)
      let* scenarios :=
        on_random (generate_scenarios demands num_scenarios variance_factor) in
      let* max_demand_sum_over_scenario :=
        lift (rbind (mapR (fun s =>
                       rbind (mapR (fun i => getitem2 scenarios s i) I)
                             (fun xs => inr (sum xs))) S)
                    max) in
      ret (Data.mk I J S demands scenarios capacities fixed_costs
             shipment_costs max_demand_sum_over_scenario)
    in
    match body (word_reader text, g) with
    | inl e => inl e
    | inr (data, (_, g')) => inr (data, g')
    end.

End DataPy.

(* ===================================================================== *)
(** * master_problem.py (not part of the sources)                        *)
(* ===================================================================== *)

Module MasterProblem.
Import Py Np.

(** Modelled from the spec: the Result entity returned by
    [solve_stochastic_cflp], whose module [master_problem.py] is missing.
    The field names are the ones [main.py] reads (lines 24-29): objective
    value, opening vector, elapsed time, per-scenario cut counters split
    by provenance, total branch-and-bound node count. *)
Record Result : Type := mk_Result {
  objective_value : float;
  locations : list float;
  solution_time : float;
  num_cuts_mip : gmap Z Z;
  num_cuts_rel : gmap Z Z;
  num_bnb_nodes : Z
}.

(** Modelled from the spec: the provenance of a cut (section 3, Cut). *)
Inductive provenance : Type :=
  | found_at_integer_incumbent
  | found_at_relaxation_node.

(** Modelled from the spec: what the Branch-and-Cut Driver (section 4.4)
    records while it searches.  The numerical work (master and subproblem
    solves, branching) is missing with [master_problem.py]; of a search
    only its bookkeeping is kept: every node visited, every cut added for
    a scenario with its provenance, every incumbent candidate with one
    opening value per facility and its objective. *)
Inductive event : Type :=
  | node_visited
  | cut_added (s : Z) (p : provenance)
  | incumbent_found (opening : Z -> float) (objective : float).

(** Modelled from the spec: the counters owned by one solve (section 9). *)
Record driver : Type := mk_driver {
  best : option ((Z -> float) * float);
  cuts_mip : gmap Z Z;
  cuts_rel : gmap Z Z;
  nodes : Z
}.

(** Modelled from the spec: each solve starts its counters at zero, one
    per scenario and provenance (section 9). *)
Definition zero_counters (scenarios : list Z) : gmap Z Z :=
  list_to_map (map (fun s => (s, 0)) scenarios).

Definition start (data : Data.t) : driver :=
  mk_driver None (zero_counters (Data.S data)) (zero_counters (Data.S data)) 0.

(** Modelled from the spec: every node visited increments the node
    counter; a cut increments the counter of its scenario and provenance;
    an incumbent replaces the best known solution if it improves on it
    (section 4.4). *)
Definition step (st : driver) (ev : event) : driver :=
  match ev with
  | node_visited =>
      mk_driver (best st) (cuts_mip st) (cuts_rel st) (nodes st + 1)
  | cut_added s found_at_integer_incumbent =>
      mk_driver (best st) (alter Z.succ s (cuts_mip st)) (cuts_rel st) (nodes st)
  | cut_added s found_at_relaxation_node =>
      mk_driver (best st) (cuts_mip st) (alter Z.succ s (cuts_rel st)) (nodes st)
  | incumbent_found y v =>
      match best st with
      | Some (_, v0) =>
          if flt v v0
          then mk_driver (Some (y, v)) (cuts_mip st) (cuts_rel st) (nodes st)
          else st
      | None => mk_driver (Some (y, v)) (cuts_mip st) (cuts_rel st) (nodes st)
      end
  end.

(** Modelled from the spec: the Solution Assembler (section 4.5) packages
    the best incumbent, the counters and the elapsed time; without an
    incumbent there is no Result (the instance-infeasible outcome of
    section 7). *)
Definition assemble (data : Data.t) (st : driver) (elapsed : float)
    : option Result :=
  match best st with
  | Some (y, v) =>
      Some (mk_Result v (map y (Data.J data)) elapsed
              (cuts_mip st) (cuts_rel st) (nodes st))
  | None => None
  end.

(** Modelled from the spec: the single solve operation (section 6).  The
    search is given by the events it produces on the instance and by the
    wall-clock time it takes. *)
Definition solve_stochastic_cflp
    (search : Data.t -> list event) (clock : Data.t -> float)
    (data : Data.t) : option Result :=
  assemble data (fold_left step (search data) (start data)) (clock data).

(** Modelled from the spec: the root test for an infeasible instance
    (section 7), which compares the total capacity against the maximum
    aggregate scenario demand. *)
Definition as_float (x : scalar) : float :=
  match x with
  | int_item z => float_of_int z
  | float_item y => y
  end.

Definition total_capacity (data : Data.t) : float :=
  sum (map as_float (items (Data.capacities data))).

Definition instance_infeasible (data : Data.t) : bool :=
  flt (total_capacity data) (Data.max_demand_sum_over_scenario data).

(** Modelled from the spec: a search that makes the root test detects an
    infeasible instance before branching (section 7); nothing is
    explored, and the solve ends without an incumbent. *)
Definition rooted (search : Data.t -> list event) (data : Data.t)
    : list event :=
  if instance_infeasible data then [] else search data.

(** Modelled from the spec: the solve operation as a caller sees it.  The
    instance is read-only to the core (section 3) and nothing is drawn:
    the call leaves the instance and the generator as they are.  How the
    instance-infeasible outcome reaches the caller is not specified; with
    no Result to return, the call raises. *)
Definition solver {G} (search : Data.t -> list event) (clock : Data.t -> float)
    (data : Data.t) : M G (Result * Data.t) :=
  fun g =>
    match solve_stochastic_cflp search clock data with
    | Some r => inr ((r, data), g)
    | None => inl ValueError
    end.

(** The number of cuts of provenance [p] a search added for scenario [s],
    and the number of nodes it visited. *)
Definition provenance_eqb (p q : provenance) : bool :=
  match p, q with
  | found_at_integer_incumbent, found_at_integer_incumbent => true
  | found_at_relaxation_node, found_at_relaxation_node => true
  | _, _ => false
  end.

Definition is_cut (p : provenance) (s : Z) (ev : event) : bool :=
  match ev with
  | cut_added s' p' => (provenance_eqb p p' && (s =? s'))%bool
  | _ => false
  end.

Definition is_node (ev : event) : bool :=
  match ev with
  | node_visited => true
  | _ => false
  end.

Definition count (f : event -> bool) (evs : list event) : Z :=
  Z.of_nat (length (List.filter f evs)).

End MasterProblem.

(* ===================================================================== *)
(** * main.py                                                            *)
(* ===================================================================== *)

Module MainPy.
Import Py Np DataPy MasterProblem.
Local Open Scope py_scope.

(** [0.5]. *)
Definition half : float := S754_finite false 4503599627370496 (-53).

(** [solution.locations[j]] on a list. *)
Definition list_getitem {A} (xs : list A) (j : Z) : result A :=
  rbind (axis_index (length xs) j) (fun j' =>
    match nth_error xs j' with
    | Some x => inr x
    | None => inl IndexError
    end).

(** [counters[s]] on a dict. *)
Definition dict_getitem (counters : gmap Z Z) (s : Z) : result Z :=
  match counters !! s with
  | Some n => inr n
  | None => inl KeyError
  end.

(** The six lines the script prints (lines 24-29). *)
Record report : Type := mk_report {
  printed_objective_value : float;
  printed_open_facilities : list Z;
  printed_solution_time : float;
  printed_cuts : Z;
  printed_cuts_at_node_relaxation : Z;
  printed_bnb_nodes : Z
}.

(** What a run leaves behind: the instance bound to [data] when the
    script ends, the solution bound to [solution], and the report printed
    from them. *)
Record run : Type := mk_run {
  run_data : Data.t;
  run_solution : Result;
  run_report : report
}.

(** [[j for j in J if locations[j] > 0.5]]. *)
Fixpoint open_facilities (locations : list float) (J : list Z)
    : result (list Z) :=
  match J with
  | [] => inr []
  | j :: J' =>
      rbind (list_getitem locations j) (fun x =>
      rbind (open_facilities locations J') (fun rest =>
        inr (if flt half x then j :: rest else rest)))
  end.

(** [sum(counters[s] for s in S)]. *)
Definition total_cuts (counters : gmap Z Z) (S : list Z) : result Z :=
  rbind (mapR (dict_getitem counters) S) (fun ns => inr (fold_left Z.add ns 0)).

(** The script (lines 13-29), on the text of the dataset file [p51] and
    with the imported [solve_stochastic_cflp] as a parameter.  The call
    receives the instance itself, not a copy: it may assign to its
    fields, it may draw from the global generator, and it may raise.  It
    is a computation over the generator that returns the solution
    together with the instance as the call leaves it, which is what
    [data] denotes in the lines that follow. *)
Definition main {G} `{RandomState G}
    (solve_stochastic_cflp : Data.t -> M G (Result * Data.t)) (text : string)
    : M G run :=
  (* Read the dataset from the file *)
  let* data := read_dataset text default_num_scenarios default_variance_factor in
  (* Solve the model and obtain the optimal solution *)
  let* '(solution, data) := solve_stochastic_cflp data in
  (* Print solution information *)
  let* opened := lift (open_facilities (locations solution) (Data.J data)) in
  let* cuts := lift (total_cuts (num_cuts_mip solution) (Data.S data)) in
  let* cuts_rel := lift (total_cuts (num_cuts_rel solution) (Data.S data)) in
  ret (mk_run data solution
         (mk_report (objective_value solution) opened (solution_time solution)
            cuts cuts_rel (num_bnb_nodes solution))).

End MainPy.

(* ===================================================================== *)
(** * Vocabulary of the properties                                       *)
(* ===================================================================== *)

(** The notions the properties below are stated with.  None of them is
    part of the program; each is defined from the program's own
    operations. *)

Module Props.
Import Py Np DataPy MasterProblem MainPy.
Local Open Scope py_scope.

(** Lines 58-77 of [read_dataset] alone: what is read from the words,
    before anything is sampled. *)
Definition read_words
    : M (list string) (Z * Z * list (Z * Z) * list float * ndarray float) :=
  let* num_facilities := (let* w := next in lift (int w)) in
  let* num_customers := (let* w := next in lift (int w)) in
  let* facilities :=
    replicateM (range_len num_facilities)
      (let* w1 := next in let* capacity := lift (int w1) in
       let* w2 := next in let* fixed_cost := lift (int w2) in
       ret (capacity, fixed_cost)) in
  let* demands :=
    replicateM (range_len num_customers)
      (let* w := next in lift (float_of_str w)) in
  let* costs :=
    replicateM (range_len (num_facilities * num_customers))
      (let* w := next in lift (float_of_str w)) in
  let* shipment_costs := lift (reshape costs num_facilities num_customers) in
  ret (num_facilities, num_customers, facilities, demands,
       transpose shipment_costs).

(** Line 88 alone. *)
Definition max_demand_sum (scenarios : ndarray float) (I S : list Z)
    : result float :=
  rbind (mapR (fun s =>
           rbind (mapR (fun i => getitem2 scenarios s i) I)
                 (fun xs => inr (sum xs))) S)
        max.

(** The test of [np.random.normal] on its scale: "scale < 0". *)
Definition scale_refused (scale : float) : bool :=
  (negb (isnan scale) && signbit scale)%bool.

(** Some demand gives a refused scale. *)
Definition some_scale_refused (variance_factor : float) (demands : list float)
    : bool :=
  existsb (fun mu => scale_refused (fmul variance_factor mu)) demands.

(** [0 <= x]. *)
Definition nonnegative (x : float) : Prop := fle fzero x = true.

(** [x] is some value clamped at zero. *)
Definition clamped (x : float) : Prop := exists y, x = max0 y.

(** The rows of a two-dimensional array, cut from its row-major entries. *)
Fixpoint chunks {A} (c r : nat) (xs : list A) : list (list A) :=
  match r with
  | O => []
  | Datatypes.S r' => firstn c xs :: chunks c r' (skipn c xs)
  end.

Definition rows {A} (a : ndarray A) : list (list A) :=
  match shape a with
  | [r; c] => chunks c r (flat a)
  | _ => []
  end.

(** A number, and one whose sign bit is clear: +0.0, a positive finite
    number, or +inf. *)
Definition positive_or_zero (x : float) : bool :=
  (negb (isnan x) && negb (signbit x))%bool.

(** The word of the file that holds the shipment cost from facility [j]
    to customer [i]: after the two header words, the two words of each
    of the [m] facilities and the [n] demands, the costs of facility 0 to
    customers 0..n-1, then those of facility 1, and so on. *)
Definition cost_word (words : list string) (m n j i : Z) : option string :=
  nth_error words (Z.to_nat (2 + 2 * m + n + (j * n + i))).

(** The two header numbers of a word list. *)
Definition header (words : list string) : option (Z * Z) :=
  match words with
  | t0 :: t1 :: _ =>
      match int t0, int t1 with
      | inr m, inr n => Some (m, n)
      | _, _ => None
      end
  | _ => None
  end.

(** The number of words [read_dataset] reads from a file whose header
    declares [m] facilities and [n] customers. *)
Definition words_declared (m n : Z) : nat :=
  (2 + 2 * range_len m + range_len n + range_len (m * n))%nat.

(** The draws behind one row of scenarios, unclamped: one per demand
    [mu], with location [mu] and scale [variance_factor * mu], each from
    the state the previous one left. *)
Fixpoint sample_row {G} `{RandomState G}
    (variance_factor : float) (demands : list float) (g : G)
    : list float * G :=
  match demands with
  | [] => ([], g)
  | mu :: demands' =>
      let (x, g1) := draw_normal g mu (fmul variance_factor mu) in
      let (xs, g') := sample_row variance_factor demands' g1 in
      (x :: xs, g')
  end.

(** The draws behind [n] rows, row after row. *)
Fixpoint sample_rows {G} `{RandomState G}
    (variance_factor : float) (demands : list float) (n : nat) (g : G)
    : list (list float) * G :=
  match n with
  | O => ([], g)
  | Datatypes.S n' =>
      let (row, g1) := sample_row variance_factor demands g in
      let (rows, g') := sample_rows variance_factor demands n' g1 in
      (row :: rows, g')
  end.

(** A number with its sign bit set: a negative number or -0.0. *)
Definition negative_signed (x : float) : bool :=
  (negb (isnan x) && signbit x)%bool.

(** Two solutions that differ in the elapsed time at most, two reports
    likewise, and two solvers whose calls differ, on every instance and
    whatever the states of the generator, in the elapsed time at most:
    the same exception, or the same solution but for the time and the
    instance left in the same state.  The solver of the specification is
    deterministic but for wall-clock time (section 4.4). *)
Definition same_but_time (r1 r2 : Result) : Prop :=
  objective_value r1 = objective_value r2
  /\ locations r1 = locations r2
  /\ num_cuts_mip r1 = num_cuts_mip r2
  /\ num_cuts_rel r1 = num_cuts_rel r2
  /\ num_bnb_nodes r1 = num_bnb_nodes r2.

Definition same_report_but_time (p1 p2 : report) : Prop :=
  printed_objective_value p1 = printed_objective_value p2
  /\ printed_open_facilities p1 = printed_open_facilities p2
  /\ printed_cuts p1 = printed_cuts p2
  /\ printed_cuts_at_node_relaxation p1 = printed_cuts_at_node_relaxation p2
  /\ printed_bnb_nodes p1 = printed_bnb_nodes p2.

Definition deterministic_but_time {G}
    (solve1 solve2 : Data.t -> M G (Result * Data.t)) : Prop :=
  forall data g1 g2,
    match solve1 data g1, solve2 data g2 with
    | inr ((r1, d1), _), inr ((r2, d2), _) => same_but_time r1 r2 /\ d1 = d2
    | inl e1, inl e2 => e1 = e2
    | _, _ => False
    end.

(** A solver that assigns to no field of the instance it is given. *)
Definition read_only {G} (solve : Data.t -> M G (Result * Data.t)) : Prop :=
  forall data g solution data' g',
    solve data g = inr ((solution, data'), g') -> data' = data.

(** The outcome of [read_dataset] without what was sampled: the fields
    that are read from the file, or the exception. *)
Definition parsed_fields {G} (r : result (Data.t * G))
    : result (list Z * list Z * list Z * list float * int_array * int_array
              * ndarray float) :=
  match r with
  | inl e => inl e
  | inr (d, _) =>
      inr (Data.I d, Data.J d, Data.S d, Data.demands d, Data.capacities d,
           Data.fixed_costs d, Data.shipment_costs d)
  end.

End Props.

(* ===================================================================== *)
(** * Example files, generators and searches                             *)
(* ===================================================================== *)

Module Examples.
Import Py Np DataPy MasterProblem MainPy Props.

(** A small instance file (two facilities, three customers), and a
    generator whose standard normal variates alternate between 0 and 1. *)
Definition example_text : string :=
  "2 3
 10 100 20 200
 1 2.5 3
 1 2 3
 4 5 6
".

Definition one : float := S754_finite false 4503599627370496 (-52).

Definition example_stream : gauss_stream :=
  mk_gauss_stream (fun p => if Nat.even p then fzero else one) 0.

Definition example_run : result (Data.t * gauss_stream) :=
  Eval vm_compute in
    read_dataset example_text 2 default_variance_factor example_stream.

Definition example_data : Data.t :=
  Eval vm_compute in
    match example_run with
    | inr (d, _) => d
    | inl _ =>
        Data.mk [] [] [] [] (mk_ndarray [] []) (array_int []) (array_int [])
          (mk_ndarray [] []) fzero
    end.

(** More example data: a demand of -1, files with a negative capacity,
    with surplus numbers and with too few numbers, and the example file
    on a single line. *)
Definition minus_one : float := S754_finite true 4503599627370496 (-52).

Definition negative_capacity_text : string := "1 1 -5 10 5 2".

Definition surplus_text : string := "1 1 5 10 5 2 99 98".

Definition short_text : string := "2 3 10 100 20 200 1 2.5 3 1 2 3 4 5".

Definition example_text_one_line : string :=
  "2 3 10 100 20 200 1 2.5 3 1 2 3 4 5 6".

(** An example search: two nodes, one cut of each provenance, and an
    incumbent that opens every facility. *)
Definition example_search (data : Data.t) : list event :=
  [node_visited; cut_added 0 found_at_relaxation_node; node_visited;
   cut_added 1 found_at_integer_incumbent;
   incumbent_found (fun _ => one) (S754_finite false 5629499534213120 (-48))].

Definition example_solver_at {G} (elapsed : float)
    : Data.t -> M G (Result * Data.t) :=
  solver example_search (fun _ => elapsed).

Definition example_solver {G} : Data.t -> M G (Result * Data.t) :=
  example_solver_at one.

(** The example search behind the root test, and a solver that assigns
    to the facility index list of the instance it is given. *)
Definition rooted_solver {G} : Data.t -> M G (Result * Data.t) :=
  solver (rooted example_search) (fun _ => one).

Definition assigning_solver {G} (data : Data.t) : M G (Result * Data.t) :=
  fun g =>
    match Data.setattr data Data.f_J [0] with
    | inr data' =>
        match solve_stochastic_cflp example_search (fun _ => one) data with
        | Some r => inr ((r, data'), g)
        | None => inl ValueError
        end
    | inl e => inl e
    end.

(** A generator whose variates are all zero, and one that agrees with
    [example_stream] on its first forty variates only. *)
Definition zero_stream : gauss_stream := mk_gauss_stream (fun _ => fzero) 0.

Definition forty_stream : gauss_stream :=
  mk_gauss_stream
    (fun p => if (p <? 40)%nat then variates example_stream p else S754_nan) 0.

(** Further example data: a file of a single facility and customer, a
    blank file, a file that declares nothing, the example instance with
    the default ten scenarios and its solution. *)
Definition single_text : string := "1 1 5 10 5 2".

Definition blank_text : string :=
  "  
	 ".

Definition nothing_text : string := "0 0 7 8".

Definition example_data_10 : Data.t :=
  Eval vm_compute in
    match read_dataset example_text default_num_scenarios
            default_variance_factor example_stream with
    | inr (d, _) => d
    | inl _ =>
        Data.mk [] [] [] [] (mk_ndarray [] []) (array_int []) (array_int [])
          (mk_ndarray [] []) fzero
    end.

Definition example_solution : Result :=
  match solve_stochastic_cflp example_search (fun _ => one) example_data_10 with
  | Some r => r
  | None => mk_Result fzero [] fzero ∅ ∅ 0
  end.

End Examples.

(* ===================================================================== *)
(** * Vocabulary of further properties                                   *)
(* ===================================================================== *)

Module MoreProps.
Import Py Np DataPy MasterProblem MainPy Props.

(** Every character of [s] satisfies [p]. *)
Fixpoint all_chars (p : ascii -> bool) (s : string) : bool :=
  match s with
  | EmptyString => true
  | String c s' => (p c && all_chars p s')%bool
  end.

(** A text of whitespace only (the empty text is one). *)
Definition blank (s : string) : bool := all_chars isspace s.

(** A word: not empty and free of whitespace. *)
Definition is_word (w : string) : bool :=
  match w with
  | EmptyString => false
  | _ => all_chars (fun c => negb (isspace c)) w
  end.

(** [sep.join(ws)]. *)
Fixpoint join (sep : string) (ws : list string) : string :=
  match ws with
  | [] => EmptyString
  | [w] => w
  | w :: ws' => (w ++ sep ++ join sep ws')%string
  end.

(** An exception [read_dataset] can raise. *)
Definition read_error (e : exn) : bool :=
  match e with
  | StopIteration | ValueError => true
  | _ => false
  end.

(** A computation that raises nothing but such exceptions. *)
Definition raises_read_errors {St A} (c : M St A) : Prop :=
  forall st e, c st = inl e -> read_error e = true.

(** A reader of words that, when it succeeds, does not look at the words
    it leaves: with more words behind, it returns the same and leaves
    these too. *)
Definition framed {A} (c : M (list string) A) : Prop :=
  forall ws a ws' extra,
    c ws = inr (a, ws') -> c (ws ++ extra) = inr (a, ws' ++ extra).

(** [locations[j] > 0.5], false when [j] is out of range. *)
Definition is_open (locations : list float) (j : Z) : bool :=
  match list_getitem locations j with
  | inr x => flt half x
  | inl _ => false
  end.

(** The counter of scenario [s], 0 when there is none. *)
Definition counter (counters : gmap Z Z) (s : Z) : Z :=
  match counters !! s with
  | Some n => n
  | None => 0
  end.

(** Every scenario of [S] has a counter. *)
Definition covers (counters : gmap Z Z) (S : list Z) : Prop :=
  forall s, In s S -> exists n, counters !! s = Some n.

(** Every entry of [J] is an index into [xs]; negative indices count
    from the end. *)
Definition indexes {A} (xs : list A) (J : list Z) : Prop :=
  forall j, In j J -> - Z.of_nat (length xs) <= j < Z.of_nat (length xs).

(** An integer that fits a signed 64-bit one. *)
Definition fits_int64 (z : Z) : bool :=
  ((- 2 ^ 63 <=? z) && (z <? 2 ^ 63))%bool.

End MoreProps.

Import Py Np DataPy MasterProblem MainPy Props Examples MoreProps.
Local Open Scope py_scope.

(* ===================================================================== *)
(** * Tactics                                                            *)
(* ===================================================================== *)

(** Case analysis on the innermost scrutinee of the goal. *)
Ltac innermost_case :=
  match goal with
  | |- context [match ?x with _ => _ end] =>
      lazymatch x with
      | context [match _ with _ => _ end] => fail
      | _ => destruct x as [?|[? ?]] eqn:? || destruct x eqn:?
      end
  end.

(** Case analysis on the comparisons of exponents and mantissas in a
    goal about the order of two floats. *)
Ltac compare_cases :=
  repeat match goal with
         | H : context [Pos.compare_cont Eq ?a ?b] |- _ =>
             change (Pos.compare_cont Eq a b) with (Pos.compare a b) in H
         | |- context [Pos.compare_cont Eq ?a ?b] =>
             change (Pos.compare_cont Eq a b) with (Pos.compare a b)
         end;
  repeat match goal with
         | H : context [Z.compare ?a ?b] |- _ =>
             destruct (Z.compare_spec a b); cbn in H; try discriminate H
         | H : context [Pos.compare ?a ?b] |- _ =>
             destruct (Pos.compare_spec a b); cbn in H; try discriminate H
         | |- context [Z.compare ?a ?b] =>
             destruct (Z.compare_spec a b); cbn
         | |- context [Pos.compare ?a ?b] =>
             destruct (Pos.compare_spec a b); cbn
         end;
  try reflexivity; try discriminate; try lia.

(** A counter that is looked up: absent, or present and incremented. *)
Ltac counter_case o :=
  destruct o; cbn; [f_equal; unfold count; cbn; lia | reflexivity].

(* ===================================================================== *)
(** * The two phases of [read_dataset]                                   *)
(* ===================================================================== *)
Lemma read_dataset_phases {G} `{RandomState G} text k vf (g : G) :
  read_dataset text k vf g =
  match read_words (word_reader text) with
  | inl e => inl e
  | inr ((m, n, facilities, demands, ship), _) =>
      match generate_scenarios demands k vf g with
      | inl e => inl e
      | inr (scen, g') =>
          match max_demand_sum scen (arange n) (arange k) with
          | inl e => inl e
          | inr mx =>
              inr (Data.mk (arange n) (arange m) (arange k) demands scen
                     (array_int (map fst facilities))
                     (array_int (map snd facilities)) ship mx, g')
          end
      end
  end.
Proof.
  unfold read_dataset, read_words, max_demand_sum.
  set (read_int := bind next (fun w => lift (int w))).
  set (read_float := bind next (fun w => lift (float_of_str w))).
  set (read_facility := bind next _).
  unfold bind, on_words, on_random, lift, ret.
  cbn [fst snd].
  repeat (innermost_case; cbn [fst snd]); reflexivity.
Qed.

(* --------------------------------------------------------------------- *)
(** ** Reading words                                                     *)
(* --------------------------------------------------------------------- *)

Section Readers.
Context {A : Type} (f : string -> result A).

(** Reading [n] words through [f] consumes exactly [n] words and returns
    their images, in order. *)
Lemma replicateM_next_inv n : forall ws xs ws',
  replicateM n (bind next (fun w => lift (f w))) ws = inr (xs, ws') ->
  exists toks, ws = toks ++ ws' /\ Forall2 (fun tok x => f tok = inr x) toks xs
               /\ length toks = n.
Proof.
  induction n as [|n IH]; intros ws xs ws' Hrun.
  - cbn in Hrun. injection Hrun as <- <-. exists []. repeat split; constructor.
  - cbn [replicateM] in Hrun. unfold bind at 1 2 in Hrun.
    unfold next at 1 in Hrun. destruct ws as [|w ws]; [discriminate|].
    unfold lift at 1 in Hrun. destruct (f w) as [e|x] eqn:Hfw; [discriminate|].
    unfold bind at 1 in Hrun.
    destruct (replicateM n _ ws) as [e|[xs0 ws0]] eqn:Hrest; [discriminate|].
    cbn in Hrun. injection Hrun as <- <-.
    destruct (IH _ _ _ Hrest) as (toks & -> & Hall & Hlen).
    exists (w :: toks). repeat split; [constructor; assumption | cbn; congruence].
Qed.

(** With too few words left the reading raises. *)
Lemma replicateM_next_short n : forall ws,
  (length ws < n)%nat ->
  exists e, replicateM n (bind next (fun w => lift (f w))) ws = inl e.
Proof.
  intros ws Hlt.
  destruct (replicateM n _ ws) as [e|[xs ws']] eqn:Hrun; [eauto|].
  apply replicateM_next_inv in Hrun as (toks & -> & _ & Hlen).
  rewrite length_app in Hlt. lia.
Qed.

End Readers.

Lemma Forall2_nth_error_l {A B} (R : A -> B -> Prop) xs ys :
  Forall2 R xs ys ->
  forall p x, nth_error xs p = Some x ->
  exists y, nth_error ys p = Some y /\ R x y.
Proof.
  induction 1 as [|x0 y0 xs ys HR Hall IH]; intros p x Hp.
  - destruct p; discriminate.
  - destruct p as [|p]; cbn in *.
    + injection Hp as <-. eauto.
    + eauto.
Qed.

Lemma Forall2_length_eq {A B} (R : A -> B -> Prop) xs ys :
  Forall2 R xs ys -> length xs = length ys.
Proof. induction 1; cbn; congruence. Qed.

(** The facility loop (lines 64-68) reads two integers per facility. *)
Lemma read_facilities_inv n : forall ws pairs ws',
  replicateM n
    (let* w1 := next in let* capacity := lift (int w1) in
     let* w2 := next in let* fixed_cost := lift (int w2) in
     ret (capacity, fixed_cost)) ws = inr (pairs, ws') ->
  exists toks, ws = toks ++ ws' /\ length toks = (2 * n)%nat
    /\ length pairs = n
    /\ forall j c fc, nth_error pairs j = Some (c, fc) ->
         exists t1 t2, nth_error toks (2 * j) = Some t1
                    /\ nth_error toks (2 * j + 1) = Some t2
                    /\ int t1 = inr c /\ int t2 = inr fc.
Proof.
  induction n as [|n IH]; intros ws pairs ws' Hrun.
  - cbn in Hrun. injection Hrun as <- <-. exists [].
    repeat split; try reflexivity. intros [|j]; discriminate.
  - cbn [replicateM] in Hrun. unfold bind at 1 2 in Hrun.
    unfold next at 1 in Hrun. destruct ws as [|w1 ws]; [discriminate|].
    unfold bind at 1, lift at 1 in Hrun.
    destruct (int w1) as [e|c0] eqn:Hc; [discriminate|].
    unfold bind at 1, next at 1 in Hrun. destruct ws as [|w2 ws]; [discriminate|].
    unfold bind at 1, lift at 1 in Hrun.
    destruct (int w2) as [e|fc0] eqn:Hfc; [discriminate|].
    unfold ret at 1, bind at 1 in Hrun.
    destruct (replicateM n _ ws) as [e|[ps ws0]] eqn:Hrest; [discriminate|].
    cbn in Hrun. injection Hrun as <- <-.
    destruct (IH _ _ _ Hrest) as (toks & -> & Hlen & Hps & Hnth).
    exists (w1 :: w2 :: toks). repeat split; cbn; try lia.
    intros [|j] c fc Hj.
    + cbn in Hj. injection Hj as <- <-. exists w1, w2. auto.
    + cbn in Hj. destruct (Hnth _ _ _ Hj) as (t1 & t2 & H1 & H2 & H3 & H4).
      exists t1, t2. repeat split; try assumption.
      * change (2 * Datatypes.S j)%nat with (Datatypes.S j + (Datatypes.S j + 0))%nat.
        replace (Datatypes.S j + (Datatypes.S j + 0))%nat
          with (Datatypes.S (Datatypes.S (2 * j))) by lia.
        exact H1.
      * change (2 * Datatypes.S j)%nat with (Datatypes.S j + (Datatypes.S j + 0))%nat.
        replace (Datatypes.S j + (Datatypes.S j + 0) + 1)%nat
          with (Datatypes.S (Datatypes.S (2 * j + 1))) by lia.
        exact H2.
Qed.

(* --------------------------------------------------------------------- *)
(** ** Arrays                                                            *)
(* --------------------------------------------------------------------- *)

(** A list built from [c] blocks of [r] entries each. *)
Lemma flat_map_blocks_length {A} (f : nat -> list A) r c : forall s,
  (forall j, (j < c)%nat -> length (f (s + j)%nat) = r) ->
  length (flat_map f (seq s c)) = (c * r)%nat.
Proof.
  induction c as [|c IH]; intros s Hlen; [reflexivity|].
  cbn [seq flat_map]. rewrite length_app, (IH (Datatypes.S s)).
  - specialize (Hlen 0%nat ltac:(lia)). rewrite Nat.add_0_r in Hlen. lia.
  - intros j Hj. specialize (Hlen (Datatypes.S j) ltac:(lia)).
    now rewrite Nat.add_succ_r in Hlen.
Qed.

Lemma flat_map_blocks_nth {A} (f : nat -> list A) r c : forall s j i,
  (forall j, (j < c)%nat -> length (f (s + j)%nat) = r) ->
  (j < c)%nat -> (i < r)%nat ->
  nth_error (flat_map f (seq s c)) (j * r + i) = nth_error (f (s + j)%nat) i.
Proof.
  induction c as [|c IH]; intros s j i Hlen Hj Hi; [lia|].
  cbn [seq flat_map].
  pose proof (Hlen 0%nat ltac:(lia)) as H0. rewrite Nat.add_0_r in H0.
  destruct j as [|j].
  - rewrite Nat.add_0_r. cbn [Nat.mul Nat.add].
    rewrite nth_error_app1 by lia. reflexivity.
  - rewrite nth_error_app2 by (rewrite H0; cbn; lia).
    rewrite H0. replace (Datatypes.S j * r + i - r)%nat with (j * r + i)%nat by (cbn; lia).
    rewrite (IH (Datatypes.S s) j i); try lia.
    + f_equal. f_equal. lia.
    + intros j' Hj'. specialize (Hlen (Datatypes.S j') ltac:(lia)).
      now rewrite Nat.add_succ_r in Hlen.
Qed.

(** Column [j] of an [r] x [c] array, read off its row-major entries. *)
Lemma column_length {A} (xs : list A) r c j :
  length xs = (r * c)%nat -> (j < c)%nat ->
  length (flat_map (fun i => option_list (nth_error xs (i * c + j))) (seq 0 r)) = r.
Proof.
  intros Hlen Hj.
  rewrite (flat_map_blocks_length _ 1%nat); [lia|].
  intros i Hi. cbn [Nat.add].
  destruct (nth_error xs (i * c + j)) eqn:Hnth; [reflexivity|].
  apply nth_error_None in Hnth. nia.
Qed.

Lemma column_nth {A} (xs : list A) r c j i :
  length xs = (r * c)%nat -> (j < c)%nat -> (i < r)%nat ->
  nth_error (flat_map (fun i => option_list (nth_error xs (i * c + j))) (seq 0 r)) i
  = nth_error xs (i * c + j).
Proof.
  intros Hlen Hj Hi.
  pose proof (flat_map_blocks_nth
                (fun i => option_list (nth_error xs (i * c + j))) 1%nat r 0%nat i 0%nat) as Hb.
  cbn [Nat.add] in Hb. rewrite Nat.mul_1_r, Nat.add_0_r in Hb.
  rewrite Hb; try lia.
  - destruct (nth_error xs (i * c + j)) eqn:Hnth; [reflexivity|].
    apply nth_error_None in Hnth. nia.
  - intros i' Hi'.
    destruct (nth_error xs (i' * c + j)) eqn:Hnth; [reflexivity|].
    apply nth_error_None in Hnth. nia.
Qed.

(** The transpose of an [r] x [c] array is [c] x [r], and its entry
    (j, i) is entry (i, j) of the array. *)
Lemma transpose_shape {A} (xs : list A) r c :
  shape (transpose (mk_ndarray [r; c] xs)) = [c; r].
Proof. reflexivity. Qed.

Lemma transpose_length {A} (xs : list A) r c :
  length xs = (r * c)%nat ->
  length (flat (transpose (mk_ndarray [r; c] xs))) = (c * r)%nat.
Proof.
  intros Hlen. cbn.
  apply (flat_map_blocks_length _ r c 0%nat).
  intros j Hj. cbn [Nat.add]. now apply column_length.
Qed.

Lemma transpose_nth {A} (xs : list A) r c i j :
  length xs = (r * c)%nat -> (i < r)%nat -> (j < c)%nat ->
  nth_error (flat (transpose (mk_ndarray [r; c] xs))) (j * r + i)
  = nth_error xs (i * c + j).
Proof.
  intros Hlen Hi Hj. cbn.
  rewrite (flat_map_blocks_nth _ r c 0%nat j i); try lia.
  - cbn [Nat.add]. now apply column_nth.
  - intros j' Hj'. cbn [Nat.add]. now apply column_length.
Qed.

(** Indexing within bounds. *)
Lemma axis_index_in_range n i :
  0 <= i < Z.of_nat n -> axis_index n i = inr (Z.to_nat i).
Proof.
  intros Hi. unfold axis_index.
  destruct (0 <=? i) eqn:H0; [|lia].
  destruct (i <? Z.of_nat n) eqn:H1; [|lia]. reflexivity.
Qed.

Lemma getitem2_in_range {A} (a : ndarray A) r c i j :
  shape a = [r; c] -> 0 <= i < Z.of_nat r -> 0 <= j < Z.of_nat c ->
  getitem2 a i j =
  match nth_error (flat a) (Z.to_nat i * c + Z.to_nat j) with
  | Some x => inr x
  | None => inl IndexError
  end.
Proof.
  intros Hs Hi Hj. unfold getitem2. rewrite Hs.
  rewrite (axis_index_in_range r i Hi), (axis_index_in_range c j Hj).
  reflexivity.
Qed.

(** [reshape] on as many entries as [range(m * n)] yields: when it
    succeeds the array has [max(m, 0)] rows and [max(n, 0)] columns. *)
Lemma reshape_range {A} (xs : list A) m n a :
  length xs = range_len (m * n) ->
  reshape xs m n = inr a ->
  a = mk_ndarray [Z.to_nat m; Z.to_nat n] xs
  /\ length xs = (Z.to_nat m * Z.to_nat n)%nat.
Proof.
  unfold reshape, range_len. intros Hlen Hre.
  destruct (m <? 0) eqn:Hm, (n <? 0) eqn:Hn; cbn [andb] in Hre.
  - discriminate.
  - destruct (n =? 0) eqn:Hn0; cbn [orb] in Hre; [discriminate|].
    destruct (Z.of_nat (length xs) mod n =? 0); cbn [negb] in Hre; [|discriminate].
    injection Hre as <-.
    assert (length xs = 0%nat) as H0 by nia.
    rewrite H0. cbn. rewrite Zdiv_0_l.
    replace (Z.to_nat m) with 0%nat by lia. split; reflexivity.
  - destruct (m =? 0) eqn:Hm0; cbn [orb] in Hre; [discriminate|].
    destruct (Z.of_nat (length xs) mod m =? 0); cbn [negb] in Hre; [|discriminate].
    injection Hre as <-.
    assert (length xs = 0%nat) as H0 by nia.
    rewrite H0. cbn. rewrite Zdiv_0_l.
    replace (Z.to_nat n) with 0%nat by lia. split; [reflexivity|lia].
  - destruct (Z.of_nat (length xs) =? m * n) eqn:Hsz; [|discriminate].
    injection Hre as <-. split; [reflexivity|]. nia.
Qed.

(** [np.array] on integers keeps their number and their order. *)
Lemma array_int_length (xs : list Z) :
  length (items (array_int xs)) = length xs.
Proof. unfold array_int. cbn [items]. apply length_map. Qed.

Lemma array_int_nth (xs : list Z) (j : nat) (x : Z) :
  nth_error xs j = Some x ->
  nth_error (items (array_int xs)) j = Some (cast (dtype (array_int xs)) x).
Proof.
  intros Hx. unfold array_int. cbn [items dtype].
  rewrite nth_error_map, Hx. reflexivity.
Qed.

(* --------------------------------------------------------------------- *)
(** ** Words and lines                                                   *)
(* --------------------------------------------------------------------- *)

Lemma string_app_cons (c : ascii) (s t : string) :
  (String c s ++ t)%string = String c (s ++ t)%string.
Proof. reflexivity. Qed.

Lemma string_app_empty_l (s : string) : (EmptyString ++ s)%string = s.
Proof. reflexivity. Qed.

Lemma string_app_empty_r (s : string) : (s ++ EmptyString)%string = s.
Proof.
  induction s as [|c s IH]; [reflexivity|].
  rewrite string_app_cons. congruence.
Qed.

Lemma snoc_app (w : string) (c : ascii) (s : string) :
  (snoc w c ++ s)%string = (w ++ String c s)%string.
Proof.
  unfold snoc. induction w as [|x w IH]; [reflexivity|].
  rewrite !string_app_cons. congruence.
Qed.

(** A whitespace character ends the word before it: the words on either
    side are found independently. *)
Lemma split_from_space (a : string) : forall (w : string) (c : ascii) (b : string),
  isspace c = true ->
  split_from w (a ++ String c b) = split_from w a ++ split b.
Proof.
  induction a as [|x a IH]; intros w c b Hc.
  - rewrite string_app_empty_l. cbn [split_from]. rewrite Hc. reflexivity.
  - rewrite string_app_cons. cbn [split_from]. destruct (isspace x).
    + rewrite IH by assumption. apply app_assoc.
    + apply IH. assumption.
Qed.

Lemma split_space (a : string) (c : ascii) (b : string) :
  isspace c = true -> split (a ++ String c b) = split a ++ split b.
Proof. apply split_from_space. Qed.

Lemma split_snoc_space (a : string) (c : ascii) :
  isspace c = true -> split (snoc a c) = split a.
Proof.
  intros Hc. unfold snoc. rewrite split_space by assumption.
  apply app_nil_r.
Qed.

Lemma split_emit (cur : string) : flat_map split (emit cur) = split cur.
Proof.
  destruct cur; [reflexivity|]. cbn [emit flat_map]. apply app_nil_r.
Qed.

Lemma isspace_LF : isspace LF = true.
Proof. reflexivity. Qed.

Lemma isspace_CR : isspace CR = true.
Proof. reflexivity. Qed.

(** The words of the lines of a text are the words of the text: every
    line terminator is whitespace, so no word spans two lines. *)
Lemma split_lines_from (s : string) : forall (after_cr : bool) (cur : string),
  (after_cr = true -> cur = EmptyString) ->
  flat_map split (lines_from after_cr cur s) = split (cur ++ s).
Proof.
  induction s as [|c s IH]; intros after_cr cur Hcr.
  - cbn [lines_from]. rewrite string_app_empty_r. apply split_emit.
  - cbn [lines_from].
    destruct (Ascii.eqb c LF) eqn:HLF.
    + apply Ascii.eqb_eq in HLF. subst c.
      destruct after_cr.
      * rewrite (Hcr eq_refl). rewrite IH by reflexivity.
        rewrite !string_app_empty_l. reflexivity.
      * cbn [flat_map]. rewrite IH by reflexivity.
        rewrite split_snoc_space, split_space by apply isspace_LF.
        rewrite string_app_empty_l. reflexivity.
    + destruct (Ascii.eqb c CR) eqn:HCR.
      * apply Ascii.eqb_eq in HCR. subst c.
        cbn [flat_map]. rewrite IH by reflexivity.
        rewrite split_snoc_space by apply isspace_LF.
        rewrite split_space by apply isspace_CR.
        rewrite string_app_empty_l. reflexivity.
      * rewrite IH by discriminate. now rewrite snoc_app.
Qed.

Lemma word_reader_split (text : string) : word_reader text = split text.
Proof.
  unfold word_reader, file_lines.
  rewrite split_lines_from by discriminate. now rewrite string_app_empty_l.
Qed.

(* --------------------------------------------------------------------- *)
(** ** Binary64: order and sign                                          *)
(* --------------------------------------------------------------------- *)

(** [<] on floats is transitive and irreflexive. *)
Lemma flt_trans (a b c : float) :
  flt a b = true -> flt b c = true -> flt a c = true.
Proof.
  unfold flt, SFltb.
  destruct a as [sa|sa| |sa ma ea], b as [sb|sb| |sb mb eb], c as [sc|sc| |sc mc ec];
    cbn; try discriminate; try reflexivity;
    repeat match goal with s : bool |- _ => destruct s end;
    cbn; try discriminate; try reflexivity;
    intros Hab Hbc; compare_cases.
Qed.

Lemma flt_irrefl (a : float) : flt a a = false.
Proof.
  unfold flt, SFltb.
  destruct a as [sa|sa| |sa ma ea]; cbn; try reflexivity;
    repeat match goal with s : bool |- _ => destruct s end;
    cbn; try reflexivity; compare_cases.
Qed.


(** Rounding keeps the sign: the result of [binary_round_aux] on a
    non-negative mantissa is a zero, a finite number or an infinity of
    the sign given. *)
Lemma iter_pos_invariant {A} (f : A -> A) (P : A -> Prop) :
  (forall x, P x -> P (f x)) -> forall n x, P x -> P (SpecFloat.iter_pos f n x).
Proof.
  intros Hf. induction n as [n IH|n IH|]; intros x Hx; cbn; auto.
Qed.

Lemma shr_1_nonneg (mrs : shr_record) : 0 <= shr_m mrs -> 0 <= shr_m (shr_1 mrs).
Proof.
  destruct mrs as [m r s]. cbn [shr_m]. intros Hm.
  destruct m as [|[p|p|]|p]; cbn; lia.
Qed.

Lemma shr_nonneg (mrs : shr_record) (e n : Z) :
  0 <= shr_m mrs -> 0 <= shr_m (fst (shr mrs e n)).
Proof.
  intros Hm. destruct n as [|p|p]; cbn [shr fst]; try assumption.
  apply (@iter_pos_invariant shr_record shr_1 (fun x => 0 <= shr_m x)); [|assumption].
  apply shr_1_nonneg.
Qed.

Lemma shr_fexp_nonneg (m e : Z) (l : location) :
  0 <= m -> 0 <= shr_m (fst (shr_fexp prec emax m e l)).
Proof.
  intros Hm. unfold shr_fexp. apply shr_nonneg.
  destruct l as [|[ | | ]]; exact Hm.
Qed.

Lemma round_nearest_even_nonneg (m : Z) (l : location) :
  0 <= m -> 0 <= round_nearest_even m l.
Proof.
  intros Hm. destruct l as [|[ | | ]]; cbn; try assumption; try lia.
  destruct (Z.even m); lia.
Qed.

Lemma binary_round_aux_sign (sx : bool) (mx ex : Z) (lx : location) :
  0 <= mx ->
  isnan (binary_round_aux prec emax sx mx ex lx) = false
  /\ signbit (binary_round_aux prec emax sx mx ex lx) = sx.
Proof.
  intros Hm. unfold binary_round_aux.
  pose proof (shr_fexp_nonneg mx ex lx Hm) as H1.
  destruct (shr_fexp prec emax mx ex lx) as [mrs' e'].
  cbn [fst] in H1.
  pose proof (shr_fexp_nonneg
                (round_nearest_even (shr_m mrs') (loc_of_shr_record mrs')) e'
                loc_Exact (round_nearest_even_nonneg _ _ H1)) as H2.
  destruct (shr_fexp prec emax _ e' loc_Exact) as [mrs'' e''].
  cbn [fst] in H2.
  destruct (shr_m mrs'') as [|p|p]; [split; reflexivity | | lia].
  destruct (e'' <=? emax - prec); split; reflexivity.
Qed.

Lemma binary_round_sign (sx : bool) (mx : positive) (ex : Z) :
  isnan (binary_round prec emax sx mx ex) = false
  /\ signbit (binary_round prec emax sx mx ex) = sx.
Proof.
  unfold binary_round. destruct (shl_align mx ex _) as [mz ez].
  apply binary_round_aux_sign. lia.
Qed.

(** A product that is a number carries the exclusive or of the signs. *)
Lemma fmul_signbit (x y : float) :
  isnan (fmul x y) = false -> signbit (fmul x y) = xorb (signbit x) (signbit y).
Proof.
  unfold fmul, SFmul.
  destruct x as [sx|sx| |sx mx ex], y as [sy|sy| |sy my ey];
    cbn [isnan signbit]; try discriminate; try reflexivity.
  intros _. apply binary_round_aux_sign. lia.
Qed.

(** A finite factor times a number is a number. *)
Lemma fmul_finite_isnan (s : bool) (m : positive) (e : Z) (y : float) :
  isnan (fmul (S754_finite s m e) y) = isnan y.
Proof.
  unfold fmul, SFmul. destruct y as [sy|sy| |sy my ey]; try reflexivity.
  apply binary_round_aux_sign. lia.
Qed.

(** Sums of numbers with a clear sign bit are such numbers. *)
Lemma fadd_positive_or_zero (x y : float) :
  positive_or_zero x = true -> positive_or_zero y = true ->
  positive_or_zero (fadd x y) = true.
Proof.
  unfold positive_or_zero, fadd, SFadd.
  destruct x as [[|]|[|]| |[|] mx ex], y as [[|]|[|]| |[|] my ey];
    cbn [isnan signbit negb andb]; try discriminate; try reflexivity.
  intros _ _. cbn [cond_Zopp].
  destruct (shl_align mx ex (Z.min ex ey)) as [mx' ex'].
  destruct (shl_align my ey (Z.min ex ey)) as [my' ey'].
  cbn [fst]. change (Z.pos mx' + Z.pos my') with (Z.pos (mx' + my')).
  cbn [binary_normalize].
  destruct (binary_round_sign false (mx' + my') (Z.min ex ey)) as [Hn Hs].
  fold prec emax. rewrite Hn, Hs. reflexivity.
Qed.

Lemma sum_positive_or_zero (xs : list float) :
  Forall (fun x => positive_or_zero x = true) xs ->
  positive_or_zero (sum xs) = true.
Proof.
  unfold sum. generalize fzero (eq_refl : positive_or_zero fzero = true).
  induction xs as [|x xs IH]; intros acc Hacc Hall; [exact Hacc|].
  cbn [fold_left]. inversion Hall; subst.
  apply IH; [|assumption]. now apply fadd_positive_or_zero.
Qed.

Lemma clamped_positive_or_zero (x : float) :
  clamped x -> positive_or_zero x = true.
Proof.
  intros [y ->]. unfold max0, flt, SFltb.
  destruct y as [[|]|[|]| |[|] my ey]; reflexivity.
Qed.

Lemma flt_asym (a b : float) : flt a b = true -> flt b a = false.
Proof.
  intros Hab. destruct (flt b a) eqn:Hba; [|reflexivity].
  pose proof (flt_trans a b a Hab Hba) as Haa.
  rewrite flt_irrefl in Haa. discriminate.
Qed.

(** [max]: the result is an entry that no entry exceeds. *)
Lemma max_fold_spec (xs : list float) : forall m0 : float,
  let m := fold_left (fun m y => if flt m y then y else m) xs m0 in
  (m = m0 \/ (In m xs /\ flt m0 m = true))
  /\ forall y, In y xs -> flt m y = false.
Proof.
  induction xs as [|x xs IH]; intros m0; cbn [fold_left].
  - split; [now left | intros y []].
  - destruct (IH (if flt m0 x then x else m0)) as (Hin & Hall).
    set (m := fold_left _ xs _) in *.
    destruct (flt m0 x) eqn:Hlt.
    + split.
      * right. destruct Hin as [->|[Hin Hxm]].
        -- split; [now left | exact Hlt].
        -- split; [now right | exact (flt_trans m0 x m Hlt Hxm)].
      * intros y [<-|Hy]; [|now apply Hall].
        destruct Hin as [->|[_ Hxm]]; [apply flt_irrefl | now apply flt_asym].
    + split.
      * destruct Hin as [->|[Hin Hm]]; [now left | right; split; [now right | exact Hm]].
      * intros y [<-|Hy]; [|now apply Hall].
        destruct Hin as [->|[_ Hm]]; [exact Hlt|].
        destruct (flt m x) eqn:Hc; [|reflexivity].
        rewrite (flt_trans m0 m x Hm Hc) in Hlt. discriminate.
Qed.

Lemma max_spec (xs : list float) (m : float) :
  max xs = inr m -> In m xs /\ forall y, In y xs -> flt m y = false.
Proof.
  destruct xs as [|x xs]; [discriminate|]. cbn [max]. intros [= <-].
  destruct (max_fold_spec xs x) as (Hin & Hall).
  set (m := fold_left _ xs x) in *. split.
  - destruct Hin as [->|[Hin _]]; [now left | now right].
  - intros y [<-|Hy]; [|now apply Hall].
    destruct Hin as [->|[_ Hm]]; [apply flt_irrefl | now apply flt_asym].
Qed.

(* --------------------------------------------------------------------- *)
(** ** Sampling                                                          *)
(* --------------------------------------------------------------------- *)

Lemma max0_nonnegative (y : float) : nonnegative (max0 y).
Proof.
  unfold nonnegative, max0, fle, flt, SFleb, SFltb.
  destruct (SFcompare fzero y) as [[ | | ]|] eqn:Hcmp; try reflexivity.
  now rewrite Hcmp.
Qed.

Lemma clamped_nonnegative (x : float) : clamped x -> nonnegative x.
Proof. intros [y ->]. apply max0_nonnegative. Qed.

Lemma forM_cons {St A B} (f : A -> M St B) (x : A) (xs : list A) (st : St) :
  forM (x :: xs) f st =
  match f x st with
  | inl e => inl e
  | inr (y, st1) =>
      match forM xs f st1 with
      | inl e => inl e
      | inr (ys, st') => inr (y :: ys, st')
      end
  end.
Proof.
  cbn [forM]. unfold bind at 1. destruct (f x st) as [e|[y st1]]; [reflexivity|].
  unfold bind. destruct (forM xs f st1) as [e|[ys st']]; reflexivity.
Qed.

Lemma replicateM_succ {St A} (c : M St A) (n : nat) (st : St) :
  replicateM (Datatypes.S n) c st =
  match c st with
  | inl e => inl e
  | inr (x, st1) =>
      match replicateM n c st1 with
      | inl e => inl e
      | inr (xs, st') => inr (x :: xs, st')
      end
  end.
Proof.
  cbn [replicateM]. unfold bind at 1. destruct (c st) as [e|[x st1]]; [reflexivity|].
  unfold bind. destruct (replicateM n c st1) as [e|[xs st']]; reflexivity.
Qed.

Section Sampling.
Context {G : Type} `{RandomState G}.

(** One entry: refused on the scale alone, else a clamped draw. *)
Lemma clamped_draw_step (vf mu : float) (g : G) :
  (let* x := random_normal mu (fmul vf mu) in ret (max0 x)) g
  = if scale_refused (fmul vf mu) then inl ValueError
    else inr (max0 (fst (draw_normal g mu (fmul vf mu))),
              snd (draw_normal g mu (fmul vf mu))).
Proof.
  unfold bind, random_normal, ret, scale_refused.
  destruct (negb (isnan (fmul vf mu)) && signbit (fmul vf mu))%bool; [reflexivity|].
  now destruct (draw_normal g mu (fmul vf mu)).
Qed.

(** One row of [generate_scenarios]: it is refused, whatever the state of
    the generator, when some scale is; otherwise it has one clamped draw
    per demand. *)
Lemma row_cases (vf : float) (demands : list float) : forall g : G,
  (some_scale_refused vf demands = true
   /\ forM demands (fun mu =>
        let* x := random_normal mu (fmul vf mu) in ret (max0 x)) g
      = inl ValueError)
  \/ (some_scale_refused vf demands = false
      /\ exists row g',
           forM demands (fun mu =>
             let* x := random_normal mu (fmul vf mu) in ret (max0 x)) g
           = inr (row, g')
           /\ length row = length demands /\ Forall clamped row).
Proof.
  induction demands as [|mu demands IH]; intros g.
  - right. split; [reflexivity|]. exists [], g. repeat split; constructor.
  - rewrite forM_cons, clamped_draw_step.
    cbn [some_scale_refused existsb].
    destruct (scale_refused (fmul vf mu)) eqn:Hmu.
    + left. split; reflexivity.
    + cbn [orb]. destruct (draw_normal g mu (fmul vf mu)) as [x g1].
      cbn [fst snd].
      destruct (IH g1) as [[Hbad Hrun]|[Hok (row & g' & Hrun & Hlen & Hall)]];
        rewrite Hrun.
      * left. split; [exact Hbad|reflexivity].
      * right. split; [exact Hok|]. exists (max0 x :: row), g'.
        repeat split; [cbn; congruence|].
        constructor; [now exists x | assumption].
Qed.

(** Rows drawn one after the other. *)
Lemma rows_refused (vf : float) (demands : list float) (n : nat) (g : G) :
  some_scale_refused vf demands = true -> (0 < n)%nat ->
  replicateM n (forM demands (fun mu =>
    let* x := random_normal mu (fmul vf mu) in ret (max0 x))) g
  = inl ValueError.
Proof.
  intros Hbad Hn. destruct n as [|n]; [lia|].
  rewrite replicateM_succ.
  destruct (row_cases vf demands g) as [[_ Hrun]|[Hok _]]; [|congruence].
  now rewrite Hrun.
Qed.

Lemma rows_drawn (vf : float) (demands : list float) (n : nat) : forall g : G,
  some_scale_refused vf demands = false ->
  exists rows g',
    replicateM n (forM demands (fun mu =>
      let* x := random_normal mu (fmul vf mu) in ret (max0 x))) g
    = inr (rows, g')
    /\ length rows = n
    /\ Forall (fun row => length row = length demands /\ Forall clamped row) rows.
Proof.
  induction n as [|n IH]; intros g Hok.
  - exists [], g. repeat split; constructor.
  - rewrite replicateM_succ.
    destruct (row_cases vf demands g) as [[Hbad _]|[_ (row & g1 & Hrun & Hlen & Hall)]];
      [congruence|].
    rewrite Hrun.
    destruct (IH g1 Hok) as (rows & g' & Hrows & Hn & Hrs).
    rewrite Hrows. exists (row :: rows), g'.
    repeat split; [cbn; congruence|]. constructor; auto.
Qed.

(** When no scale is refused the rows are the draws, clamped. *)
Lemma sample_row_length (vf : float) (demands : list float) : forall g : G,
  length (fst (sample_row vf demands g)) = length demands.
Proof.
  induction demands as [|mu demands IH]; intros g; [reflexivity|].
  cbn [sample_row]. destruct (draw_normal g mu (fmul vf mu)) as [x g1].
  specialize (IH g1). destruct (sample_row vf demands g1) as [xs g'].
  cbn [fst length] in *. congruence.
Qed.

Lemma row_drawn (vf : float) (demands : list float) : forall g : G,
  some_scale_refused vf demands = false ->
  forM demands (fun mu =>
    let* x := random_normal mu (fmul vf mu) in ret (max0 x)) g
  = inr (map max0 (fst (sample_row vf demands g)),
         snd (sample_row vf demands g)).
Proof.
  induction demands as [|mu demands IH]; intros g Hok; [reflexivity|].
  cbn [some_scale_refused existsb] in Hok. apply orb_false_elim in Hok as [Hmu Hok].
  rewrite forM_cons, clamped_draw_step, Hmu. cbn [sample_row].
  destruct (draw_normal g mu (fmul vf mu)) as [x g1]. cbn [fst snd].
  rewrite (IH g1 Hok). now destruct (sample_row vf demands g1).
Qed.

Lemma rows_drawn_eq (vf : float) (demands : list float) (n : nat) : forall g : G,
  some_scale_refused vf demands = false ->
  replicateM n (forM demands (fun mu =>
    let* x := random_normal mu (fmul vf mu) in ret (max0 x))) g
  = inr (map (map max0) (fst (sample_rows vf demands n g)),
         snd (sample_rows vf demands n g)).
Proof.
  induction n as [|n IH]; intros g Hok; [reflexivity|].
  rewrite replicateM_succ, row_drawn by assumption. cbn [sample_rows].
  destruct (sample_row vf demands g) as [row g1]. cbn [fst snd].
  rewrite (IH g1 Hok). now destruct (sample_rows vf demands n g1).
Qed.

End Sampling.

(** [np.array] on rows of one length. *)
Lemma array_rectangular {A} (P : A -> Prop) (rows : list (list A)) (c : nat) :
  rows <> [] ->
  Forall (fun row => length row = c /\ Forall P row) rows ->
  exists a, array rows = inr a /\ shape a = [length rows; c]
            /\ flat a = concat rows
            /\ length (flat a) = (length rows * c)%nat /\ Forall P (flat a).
Proof.
  intros Hne Hall. destruct rows as [|r rs]; [congruence|].
  unfold array.
  assert (length r = c) as Hr by (inversion Hall as [|? ? [? _] _]; assumption).
  assert (forallb (fun r' => Nat.eqb (length r') (length r)) rs = true) as ->.
  { apply forallb_forall. intros r' Hin. apply Nat.eqb_eq.
    inversion Hall as [|? ? _ Hrs]; subst.
    rewrite List.Forall_forall in Hrs. destruct (Hrs r' Hin) as [-> _]. reflexivity. }
  eexists. split; [reflexivity|]. cbn [shape flat]. repeat split.
  - now rewrite Hr.
  - clear Hne Hr. induction Hall as [|r0 rs0 [Hr0 _] _ IH]; [reflexivity|].
    cbn [concat]. rewrite length_app, IH, Hr0. cbn [length]. lia.
  - clear Hne Hr. induction Hall as [|r0 rs0 [_ Hp] _ IH]; [constructor|].
    cbn [concat]. apply Forall_app. split; assumption.
Qed.

Section Scenarios.
Context {G : Type} `{RandomState G}.

(** The three ways a call of [generate_scenarios] can go. *)
Lemma generate_scenarios_none demands k vf (g : G) :
  k <= 0 ->
  generate_scenarios demands k vf g = inr (mk_ndarray [0%nat] [], g).
Proof.
  intros Hk. unfold generate_scenarios, range_len.
  replace (Z.to_nat k) with 0%nat by lia. reflexivity.
Qed.

Lemma generate_scenarios_refused demands k vf (g : G) :
  1 <= k -> some_scale_refused vf demands = true ->
  generate_scenarios demands k vf g = inl ValueError.
Proof.
  intros Hk Hbad. unfold generate_scenarios, range_len. unfold bind at 1.
  rewrite rows_refused by (assumption || lia). reflexivity.
Qed.

Lemma generate_scenarios_drawn demands k vf (g : G) :
  1 <= k -> some_scale_refused vf demands = false ->
  exists a g',
    generate_scenarios demands k vf g = inr (a, g')
    /\ shape a = [Z.to_nat k; length demands]
    /\ length (flat a) = (Z.to_nat k * length demands)%nat
    /\ Forall clamped (flat a).
Proof.
  intros Hk Hok. unfold generate_scenarios, range_len. unfold bind at 1.
  destruct (rows_drawn vf demands (Z.to_nat k) g Hok) as (rows & g' & -> & Hn & Hrs).
  destruct (array_rectangular clamped rows (length demands)) as (a & Ha & Hs & _ & Hl & Hp).
  - intros ->. cbn in Hn. lia.
  - exact Hrs.
  - unfold lift. rewrite Ha. exists a, g'. rewrite <- Hn. auto.
Qed.

End Scenarios.

(* --------------------------------------------------------------------- *)
(** ** Rows and their sums                                               *)
(* --------------------------------------------------------------------- *)

Lemma nth_error_bound {A} (xs : list A) (i : nat) (x : A) :
  nth_error xs i = Some x -> (i < length xs)%nat.
Proof. intros Hi. apply nth_error_Some. congruence. Qed.

Lemma chunks_length {A} (c r : nat) : forall xs : list A,
  length (chunks c r xs) = r.
Proof. induction r as [|r IH]; intros xs; cbn; [reflexivity | now rewrite IH]. Qed.

Lemma chunks_nth {A} (c r : nat) : forall (xs : list A) (s : nat),
  (s < r)%nat ->
  nth_error (chunks c r xs) s = Some (firstn c (skipn (s * c) xs)).
Proof.
  induction r as [|r IH]; intros xs s Hs; [lia|].
  destruct s as [|s]; cbn [chunks nth_error].
  - reflexivity.
  - rewrite IH by lia. rewrite skipn_skipn. do 3 f_equal. cbn. lia.
Qed.

Lemma chunk_entry {A} (c : nat) (xs : list A) (s i : nat) :
  (i < c)%nat ->
  nth_error (firstn c (skipn (s * c) xs)) i = nth_error xs (s * c + i).
Proof.
  intros Hi. rewrite nth_error_firstn.
  destruct (Nat.ltb_spec i c); [|lia]. apply nth_error_skipn.
Qed.

Lemma chunk_length {A} (c r : nat) (xs : list A) (s : nat) :
  length xs = (r * c)%nat -> (s < r)%nat ->
  length (firstn c (skipn (s * c) xs)) = c.
Proof.
  intros Hlen Hs. rewrite length_firstn, length_skipn. nia.
Qed.

(** A comprehension over [range(len(ys))] whose body yields the entries of
    [ys] in turn yields [ys]. *)
Lemma mapR_seq {B} (f : Z -> result B) (ys : list B) : forall t : nat,
  (forall i y, nth_error ys i = Some y -> f (Z.of_nat (t + i)) = inr y) ->
  mapR f (map Z.of_nat (seq t (length ys))) = inr ys.
Proof.
  induction ys as [|y ys IH]; intros t Hf; [reflexivity|].
  cbn [length seq map mapR].
  rewrite <- (Nat.add_0_r t) at 1. rewrite (Hf 0%nat y eq_refl).
  cbn [rbind]. rewrite IH; [reflexivity|].
  intros i y' Hi. rewrite Nat.add_succ_l, <- Nat.add_succ_r. now apply Hf.
Qed.

(** The entries of row [s], fetched one index after the other. *)
Lemma getitem2_row {A} (a : ndarray A) (r c s : nat) :
  shape a = [r; c] -> length (flat a) = (r * c)%nat -> (s < r)%nat ->
  mapR (fun i => getitem2 a (Z.of_nat s) i) (arange (Z.of_nat c))
  = inr (firstn c (skipn (s * c) (flat a))).
Proof.
  intros Hshape Hlen Hs. unfold arange, range, range_len.
  rewrite Nat2Z.id.
  rewrite <- (chunk_length c r (flat a) s Hlen Hs) at 1.
  apply mapR_seq. intros i y Hi. cbn [Nat.add].
  assert (i < c)%nat as Hic.
  { apply nth_error_bound in Hi.
    rewrite (chunk_length c r (flat a) s Hlen Hs) in Hi. exact Hi. }
  rewrite (getitem2_in_range a r c) by (assumption || lia).
  rewrite !Nat2Z.id. rewrite chunk_entry in Hi by assumption. now rewrite Hi.
Qed.

(** Line 88 on a [k] x [n] array: the largest of the sums of its rows. *)
Lemma max_demand_sum_rows (a : ndarray float) (r c : nat) :
  shape a = [r; c] -> length (flat a) = (r * c)%nat ->
  max_demand_sum a (arange (Z.of_nat c)) (arange (Z.of_nat r))
  = max (map sum (rows a)).
Proof.
  intros Hshape Hlen. unfold max_demand_sum.
  assert (mapR (fun s =>
            rbind (mapR (fun i => getitem2 a s i) (arange (Z.of_nat c)))
                  (fun xs => inr (sum xs)))
            (arange (Z.of_nat r))
          = inr (map sum (rows a))) as ->; [|reflexivity].
  unfold arange at 2, range, range_len. rewrite Nat2Z.id.
  assert (length (map sum (rows a)) = r) as Hr.
  { rewrite length_map. unfold rows. rewrite Hshape. apply chunks_length. }
  rewrite <- Hr at 1. apply mapR_seq.
  intros s y Hs. cbn [Nat.add].
  rewrite nth_error_map in Hs. unfold rows in Hs. rewrite Hshape in Hs.
  destruct (nth_error (chunks c r (flat a)) s) as [row|] eqn:Hrow; [|discriminate].
  injection Hs as <-.
  assert (s < r)%nat as Hsr.
  { apply nth_error_bound in Hrow. now rewrite chunks_length in Hrow. }
  rewrite chunks_nth in Hrow by assumption. injection Hrow as <-.
  now rewrite (getitem2_row a r c s Hshape Hlen Hsr).
Qed.

(* --------------------------------------------------------------------- *)
(** ** What a successful [read_dataset] has done                         *)
(* --------------------------------------------------------------------- *)

Lemma bind_inr {St A B} (c : M St A) (k : A -> M St B) st r :
  bind c k st = inr r -> exists a st1, c st = inr (a, st1) /\ k a st1 = inr r.
Proof.
  unfold bind. destruct (c st) as [e|[a st1]]; [discriminate|]. eauto.
Qed.

Lemma lift_inr {St A} (r : result A) (st st' : St) a :
  lift r st = inr (a, st') -> r = inr a /\ st' = st.
Proof.
  unfold lift. destruct r; [discriminate|]. intros [= -> ->]. auto.
Qed.

Lemma next_inr ws w ws' : next ws = inr (w, ws') -> ws = w :: ws'.
Proof. destruct ws; [discriminate|]. now intros [= -> ->]. Qed.

Lemma read_int_inr ws z ws' :
  (let* w := next in lift (int w)) ws = inr (z, ws') ->
  exists t, ws = t :: ws' /\ int t = inr z.
Proof.
  intros Hrun. apply bind_inr in Hrun as (w & ws1 & Hnext & Hint).
  apply next_inr in Hnext. apply lift_inr in Hint as [Hint ->]. eauto.
Qed.

(** The words consumed by lines 58-77 and what became of them: the two
    header words, two words per facility, one per customer, one per
    facility-customer pair. *)
Lemma read_words_inv ws m n facilities demands ship ws' :
  read_words ws = inr ((m, n, facilities, demands, ship), ws') ->
  exists t0 t1 ftoks dtoks ctoks costs,
    ws = t0 :: t1 :: ftoks ++ dtoks ++ ctoks ++ ws'
    /\ int t0 = inr m /\ int t1 = inr n
    /\ length ftoks = (2 * range_len m)%nat
    /\ length facilities = range_len m
    /\ (forall j c fc, nth_error facilities j = Some (c, fc) ->
          exists w1 w2, nth_error ftoks (2 * j) = Some w1
                     /\ nth_error ftoks (2 * j + 1) = Some w2
                     /\ int w1 = inr c /\ int w2 = inr fc)
    /\ length dtoks = range_len n
    /\ Forall2 (fun tok x => float_of_str tok = inr x) dtoks demands
    /\ length ctoks = range_len (m * n)
    /\ Forall2 (fun tok x => float_of_str tok = inr x) ctoks costs
    /\ length costs = (Z.to_nat m * Z.to_nat n)%nat
    /\ ship = transpose (mk_ndarray [Z.to_nat m; Z.to_nat n] costs).
Proof.
  unfold read_words. intros Hrun.
  apply bind_inr in Hrun as (m0 & ws1 & Hm & Hrun).
  apply read_int_inr in Hm as (t0 & -> & Ht0).
  apply bind_inr in Hrun as (n0 & ws2 & Hn & Hrun).
  apply read_int_inr in Hn as (t1 & -> & Ht1).
  apply bind_inr in Hrun as (fac & ws3 & Hfac & Hrun).
  apply read_facilities_inv in Hfac as (ftoks & -> & Hflen & Hfac & Hfnth).
  apply bind_inr in Hrun as (dem & ws4 & Hdem & Hrun).
  apply replicateM_next_inv in Hdem as (dtoks & -> & Hdall & Hdlen).
  apply bind_inr in Hrun as (costs & ws5 & Hcosts & Hrun).
  apply replicateM_next_inv in Hcosts as (ctoks & -> & Hcall & Hclen).
  apply bind_inr in Hrun as (a & ws6 & Hre & Hrun).
  apply lift_inr in Hre as [Hre ->].
  unfold ret in Hrun. injection Hrun as <- <- <- <- <- <-.
  assert (length costs = range_len (m0 * n0)) as Hcl.
  { rewrite <- (Forall2_length_eq _ _ _ Hcall). exact Hclen. }
  destruct (reshape_range costs m0 n0 a Hcl Hre) as [-> Hprod].
  exists t0, t1, ftoks, dtoks, ctoks, costs.
  repeat split; try assumption.
Qed.

Section Inversion.
Context {G : Type} `{RandomState G}.

Lemma read_dataset_inv text k vf (g : G) d g' :
  read_dataset text k vf g = inr (d, g') ->
  exists m n facilities demands ship ws' scen mx,
    read_words (word_reader text) = inr ((m, n, facilities, demands, ship), ws')
    /\ generate_scenarios demands k vf g = inr (scen, g')
    /\ max_demand_sum scen (arange n) (arange k) = inr mx
    /\ d = Data.mk (arange n) (arange m) (arange k) demands scen
             (array_int (map fst facilities))
             (array_int (map snd facilities)) ship mx.
Proof.
  rewrite read_dataset_phases. intros Hrun.
  destruct (read_words (word_reader text))
    as [e|[[[[[m n] facilities] demands] ship] ws']] eqn:Hwords; [discriminate|].
  destruct (generate_scenarios demands k vf g) as [e|[scen g1]] eqn:Hgen;
    [discriminate|].
  destruct (max_demand_sum scen (arange n) (arange k)) as [e|mx] eqn:Hmx;
    [discriminate|].
  injection Hrun as <- <-.
  exists m, n, facilities, demands, ship, ws', scen, mx.
  repeat split; assumption || reflexivity.
Qed.

(** A successful run drew at least one scenario, none of them refused,
    and the scenario array has one row per scenario and one column per
    demand. *)
Lemma read_dataset_scenarios demands k vf (g : G) scen g' n mx :
  generate_scenarios demands k vf g = inr (scen, g') ->
  max_demand_sum scen (arange n) (arange k) = inr mx ->
  1 <= k /\ some_scale_refused vf demands = false
  /\ shape scen = [Z.to_nat k; length demands]
  /\ length (flat scen) = (Z.to_nat k * length demands)%nat
  /\ Forall clamped (flat scen).
Proof.
  intros Hgen Hmx.
  destruct (Z_lt_le_dec k 1) as [Hk|Hk].
  - exfalso. unfold max_demand_sum, arange, range, range_len in Hmx.
    replace (Z.to_nat k) with 0%nat in Hmx by lia. discriminate.
  - destruct (some_scale_refused vf demands) eqn:Hbad.
    + rewrite generate_scenarios_refused in Hgen by assumption. discriminate.
    + destruct (generate_scenarios_drawn demands k vf g Hk Hbad)
        as (a & g1 & Hrun & Hshape & Hlen & Hcl).
      rewrite Hrun in Hgen. injection Hgen as <- <-. auto.
Qed.

End Inversion.

(* --------------------------------------------------------------------- *)
(** ** Index ranges                                                      *)
(* --------------------------------------------------------------------- *)

Lemma range_length (n : Z) : length (range n) = Z.to_nat n.
Proof. unfold range, range_len. now rewrite length_map, length_seq. Qed.

Lemma range_In (n i : Z) : In i (range n) <-> 0 <= i < n.
Proof.
  unfold range, range_len. rewrite in_map_iff. split.
  - intros (p & <- & Hp). apply in_seq in Hp. lia.
  - intros Hi. exists (Z.to_nat i). split; [lia|]. apply in_seq. lia.
Qed.

Lemma range_to_nat (n : Z) : range (Z.of_nat (Z.to_nat n)) = range n.
Proof. unfold range, range_len. now rewrite Nat2Z.id. Qed.



Lemma rows_length {A} (a : ndarray A) (r c : nat) :
  shape a = [r; c] -> length (rows a) = r.
Proof. intros Hs. unfold rows. rewrite Hs. apply chunks_length. Qed.

Lemma rows_nth {A} (a : ndarray A) (r c s : nat) :
  shape a = [r; c] -> (s < r)%nat ->
  nth_error (rows a) s = Some (firstn c (skipn (s * c) (flat a))).
Proof. intros Hs Hlt. unfold rows. rewrite Hs. now apply chunks_nth. Qed.

Lemma rows_In {A} (a : ndarray A) (r c : nat) (row : list A) :
  shape a = [r; c] -> length (flat a) = (r * c)%nat ->
  In row (rows a) -> length row = c /\ forall x, In x row -> In x (flat a).
Proof.
  intros Hs Hlen Hin. apply In_nth_error in Hin as [s Hs'].
  pose proof (nth_error_bound _ _ _ Hs') as Hb.
  rewrite (rows_length a r c Hs) in Hb.
  rewrite (rows_nth a r c s Hs Hb) in Hs'. injection Hs' as <-. split.
  - now apply (chunk_length c r).
  - intros x Hx. apply In_nth_error in Hx as [i Hi].
    pose proof (nth_error_bound _ _ _ Hi) as Hb'.
    rewrite (chunk_length c r (flat a) s Hlen Hb) in Hb'.
    rewrite chunk_entry in Hi by assumption.
    eapply nth_error_In. exact Hi.
Qed.

(* ===================================================================== *)
(** * Properties of the instance reader                                  *)
(* ===================================================================== *)

Section Reader.
Context {G : Type} `{RandomState G}.


(** C5.  The shipment-cost matrix of the instance is customer x
    facility: the file lists the costs facility by facility (a
    [num_facilities] x [num_customers] matrix in row-major order) and
    [read_dataset] returns the transpose, so [shipment_costs[i, j]] is the
    number the file gives for facility [j] and customer [i]. *)
Theorem shipment_costs_transposed text k vf (g : G) d g' :
  read_dataset text k vf g = inr (d, g') ->
  exists num_facilities num_customers,
    header (word_reader text) = Some (num_facilities, num_customers)
    /\ forall i j, 0 <= i < num_customers -> 0 <= j < num_facilities ->
         exists word cost,
           cost_word (word_reader text) num_facilities num_customers j i
           = Some word
           /\ float_of_str word = inr cost
           /\ getitem2 (Data.shipment_costs d) i j = inr cost.
Proof.
  intros Hrun.
  apply read_dataset_inv in Hrun
    as (m & n & fac & dem & ship & ws' & scen & mx & Hwords & _ & _ & ->).
  apply read_words_inv in Hwords
    as (t0 & t1 & ftoks & dtoks & ctoks & costs & Hws & Ht0 & Ht1 & Hflen & _ & _
        & Hdlen & _ & Hctoks & Hcall & Hclen & ->).
  exists m, n. rewrite Hws. unfold header. rewrite Ht0, Ht1.
  split; [reflexivity|]. intros i j Hi Hj.
  cbn [Data.shipment_costs]. unfold cost_word, range_len in *.
  set (p := (Z.to_nat j * Z.to_nat n + Z.to_nat i)%nat).
  assert (p < length ctoks)%nat as Hp by (unfold p; rewrite Hctoks; nia).
  destruct (nth_error ctoks p) as [word|] eqn:Hword;
    [|apply nth_error_None in Hword; lia].
  destruct (Forall2_nth_error_l _ _ _ Hcall p word Hword) as (cost & Hcost & Hparse).
  exists word, cost. repeat split; [|exact Hparse|].
  - replace (Z.to_nat (2 + 2 * m + n + (j * n + i)))
      with (Datatypes.S (Datatypes.S (length ftoks + (length dtoks + p))))
      by (unfold p; nia).
    cbn [nth_error].
    rewrite nth_error_app2 by lia.
    replace (length ftoks + (length dtoks + p) - length ftoks)%nat
      with (length dtoks + p)%nat by lia.
    rewrite nth_error_app2 by lia.
    replace (length dtoks + p - length dtoks)%nat with p by lia.
    rewrite nth_error_app1 by assumption. exact Hword.
  - rewrite (getitem2_in_range _ (Z.to_nat n) (Z.to_nat m))
      by (reflexivity || lia).
    rewrite (transpose_nth costs (Z.to_nat m) (Z.to_nat n) (Z.to_nat j) (Z.to_nat i))
      by (assumption || lia).
    fold p. now rewrite Hcost.
Qed.


(** C8.  The parse depends on the words of the file only, never on how
    they are laid out in lines (nor on the state of the generator): two
    files with the same sequence of whitespace-separated words give the
    same outcome, as far as [I], [J], [S], [demands], [capacities],
    [fixed_costs] and [shipment_costs] go, or the same exception. *)
Theorem read_dataset_line_insensitive text1 text2 k vf (g1 g2 : G) :
  split text1 = split text2 ->
  parsed_fields (read_dataset text1 k vf g1)
  = parsed_fields (read_dataset text2 k vf g2).
Proof.
  intros Hsplit. rewrite !read_dataset_phases, !word_reader_split, Hsplit.
  destruct (read_words (split text2))
    as [e|[[[[[m n] fac] dem] ship] ws']] eqn:Hwords; [reflexivity|].
  apply read_words_inv in Hwords
    as (_ & _ & _ & dtoks & _ & _ & _ & _ & _ & _ & _ & _
        & Hdlen & Hdall & _).
  assert (length dem = Z.to_nat n) as Hdem.
  { rewrite <- (Forall2_length_eq _ _ _ Hdall). exact Hdlen. }
  destruct (Z_lt_le_dec k 1) as [Hk|Hk].
  - rewrite !generate_scenarios_none by lia.
    unfold max_demand_sum, arange, range, range_len.
    replace (Z.to_nat k) with 0%nat by lia. reflexivity.
  - destruct (some_scale_refused vf dem) eqn:Hbad.
    + rewrite !generate_scenarios_refused by assumption. reflexivity.
    + destruct (generate_scenarios_drawn dem k vf g1 Hk Hbad)
        as (a1 & g1' & -> & Hs1 & Hl1 & _).
      destruct (generate_scenarios_drawn dem k vf g2 Hk Hbad)
        as (a2 & g2' & -> & Hs2 & Hl2 & _).
      unfold arange.
      rewrite <- (range_to_nat n), <- (range_to_nat k), <- Hdem.
      fold (arange (Z.of_nat (length dem))) (arange (Z.of_nat (Z.to_nat k))).
      rewrite (max_demand_sum_rows a1 _ _ Hs1 Hl1).
      rewrite (max_demand_sum_rows a2 _ _ Hs2 Hl2).
      destruct (rows a1) as [|r1 rs1] eqn:Hr1.
      { pose proof (rows_length a1 _ _ Hs1) as Hlen. rewrite Hr1 in Hlen.
        cbn in Hlen. lia. }
      destruct (rows a2) as [|r2 rs2] eqn:Hr2.
      { pose proof (rows_length a2 _ _ Hs2) as Hlen. rewrite Hr2 in Hlen.
        cbn in Hlen. lia. }
      cbn [map max parsed_fields Data.I Data.J Data.S Data.demands
           Data.capacities Data.fixed_costs Data.shipment_costs].
      unfold arange. now rewrite !range_to_nat.
Qed.

(** C1, as amended.  A negative capacity is not a reason for
    [read_dataset] to reject a file.  A mismatch of dimensions is, when
    the file is too short for the dimensions its header declares: when
    the file has fewer words than the 2 + 2 m + n + m n that [m]
    facilities and [n] customers call for, the call raises, whatever the
    number of scenarios and the state of the generator, and no [Data] is
    built. *)
Theorem read_dataset_rejects_short_file text k vf (g : G) m n :
  header (word_reader text) = Some (m, n) ->
  (length (word_reader text) < words_declared m n)%nat ->
  exists e, read_dataset text k vf g = inl e.
Proof.
  intros Hhead Hshort.
  destruct (read_dataset text k vf g) as [e|[d g']] eqn:Hrun; [eauto|].
  exfalso.
  apply read_dataset_inv in Hrun
    as (m' & n' & fac & dem & ship & ws' & scen & mx & Hwords & _).
  apply read_words_inv in Hwords
    as (t0 & t1 & ftoks & dtoks & ctoks & costs & Hws & Ht0 & Ht1 & Hflen & _ & _
        & Hdlen & _ & Hclen & _).
  rewrite Hws in Hhead, Hshort. unfold header in Hhead.
  rewrite Ht0, Ht1 in Hhead. injection Hhead as -> ->.
  unfold words_declared in Hshort. cbn [length] in Hshort.
  rewrite !length_app in Hshort. lia.
Qed.

End Reader.

Section Generator.
Context {G : Type} `{RandomState G}.

(** C4, as amended.  Scenario generation is normal sampling around each
    nominal demand, clamped at zero: for [num_scenarios >= 1] and demands
    none of which gives a refused (negative) scale, [generate_scenarios]
    returns a [num_scenarios] x [len(demands)] array whose entries are,
    row after row, the maximum of 0 and the draw made around the
    corresponding demand; every entry is nonnegative. *)
Theorem generate_scenarios_clamped demands k vf (g : G) :
  1 <= k -> some_scale_refused vf demands = false ->
  exists a,
    generate_scenarios demands k vf g
    = inr (a, snd (sample_rows vf demands (Z.to_nat k) g))
    /\ shape a = [Z.to_nat k; length demands]
    /\ flat a
       = concat (map (map max0) (fst (sample_rows vf demands (Z.to_nat k) g)))
    /\ Forall (fun row => length row = length demands)
              (fst (sample_rows vf demands (Z.to_nat k) g))
    /\ Forall nonnegative (flat a).
Proof.
  intros Hk Hok.
  destruct (rows_drawn vf demands (Z.to_nat k) g Hok) as (rows & g' & Hrun & Hn & Hrs).
  pose proof (rows_drawn_eq vf demands (Z.to_nat k) g Hok) as Heq.
  rewrite Hrun in Heq. injection Heq as Hrows Hg.
  destruct (array_rectangular clamped rows (length demands)) as (a & Ha & Hs & Hf & _ & Hp).
  { intros ->. cbn in Hn. lia. }
  { exact Hrs. }
  exists a. unfold generate_scenarios, range_len. unfold bind at 1.
  rewrite Hrun. unfold lift. rewrite Ha, <- Hg, <- Hrows.
  repeat split.
  - rewrite Hs, Hn. reflexivity.
  - exact Hf.
  - assert (Forall (fun row : list float => length row = length demands) rows) as Hlen.
    { eapply List.Forall_impl; [|exact Hrs]. now intros row [Hl _]. }
    rewrite Hrows in Hlen. clear - Hlen.
    induction (fst (sample_rows vf demands (Z.to_nat k) g)) as [|row rs IH];
      [constructor|].
    cbn [map] in Hlen. inversion Hlen; subst.
    constructor; [now rewrite length_map in * | auto].
  - eapply List.Forall_impl; [|exact Hp]. apply clamped_nonnegative.
Qed.

(** C9, as amended.  With [num_scenarios >= 1] and a positive finite
    [variance_factor] (the default 0.2 is one), [generate_scenarios]
    succeeds exactly on demands none of which is a number with its sign
    bit set: if every demand is +0.0, positive or NaN it returns a
    [num_scenarios] x [len(demands)] array, and if some demand is
    negative or -0.0 the scale [variance_factor * demand] is refused and
    the call raises [ValueError]. *)
Theorem generate_scenarios_domain demands k (m : positive) (e : Z) (g : G) :
  1 <= k ->
  let vf := S754_finite false m e in
  (existsb negative_signed demands = false ->
     exists a g', generate_scenarios demands k vf g = inr (a, g')
                  /\ shape a = [Z.to_nat k; length demands])
  /\ (existsb negative_signed demands = true ->
        generate_scenarios demands k vf g = inl ValueError).
Proof.
  intros Hk vf.
  assert (some_scale_refused vf demands = existsb negative_signed demands) as Hsame.
  { unfold some_scale_refused. clear. induction demands as [|mu ds IH]; [reflexivity|].
    cbn [existsb]. rewrite IH. f_equal.
    unfold scale_refused, negative_signed, vf.
    rewrite fmul_finite_isnan.
    destruct (isnan mu) eqn:Hnan; [reflexivity|]. cbn [negb andb].
    rewrite fmul_signbit by (now rewrite fmul_finite_isnan). reflexivity. }
  split; intros Hd; rewrite <- Hsame in Hd.
  - destruct (generate_scenarios_drawn demands k vf g Hk Hd)
      as (a & g' & Hrun & Hshape & _). eauto.
  - now apply generate_scenarios_refused.
Qed.

End Generator.

(* ===================================================================== *)
(** * Properties of the solve operation and of the script                *)
(* ===================================================================== *)

Lemma zero_counters_lookup (scenarios : list Z) (s : Z) :
  In s scenarios -> zero_counters scenarios !! s = Some 0.
Proof.
  unfold zero_counters. induction scenarios as [|s0 ss IH]; intros Hin; [destruct Hin|].
  cbn [map list_to_map foldr fst snd].
  destruct (decide (s0 = s)) as [->|Hne].
  - apply lookup_insert_eq.
  - rewrite lookup_insert_ne by assumption. destruct Hin; [congruence | auto].
Qed.

Lemma count_cons (f : event -> bool) (ev : event) (evs : list event) :
  count f (ev :: evs) = (if f ev then 1 else 0) + count f evs.
Proof. unfold count. cbn [List.filter]. destruct (f ev); cbn [length]; lia. Qed.

Lemma step_best (st : driver) (ev : event) :
  best (step st ev) = best st
  \/ exists y v, ev = incumbent_found y v /\ best (step st ev) = Some (y, v).
Proof.
  destruct ev as [|s [|]|y v]; cbn [step best]; try now left.
  destruct (best st) as [[y0 v0]|] eqn:Hb.
  - destruct (flt v v0); cbn [best]; [right; eauto | left; now symmetry].
  - right. eauto.
Qed.

(** The counters after a search: each counts the events of its kind. *)
Lemma run_bookkeeping (evs : list event) : forall st : driver,
  let st' := fold_left step evs st in
  (forall s, cuts_mip st' !! s
             = (fun c => c + count (is_cut found_at_integer_incumbent s) evs)
                 <$> cuts_mip st !! s)
  /\ (forall s, cuts_rel st' !! s
                = (fun c => c + count (is_cut found_at_relaxation_node s) evs)
                    <$> cuts_rel st !! s)
  /\ nodes st' = nodes st + count is_node evs
  /\ (best st' = best st
      \/ exists y v, In (incumbent_found y v) evs /\ best st' = Some (y, v)).
Proof.
  induction evs as [|ev evs IH]; intros st; cbn [fold_left].
  - unfold count. cbn. repeat split; try lia; try now left.
    + intros s. counter_case (cuts_mip st !! s).
    + intros s. counter_case (cuts_rel st !! s).
  - destruct (IH (step st ev)) as (Hmip & Hrel & Hnodes & Hbest).
    repeat split.
    + intros s. rewrite Hmip, count_cons.
      destruct ev as [|s' [|]|y v]; cbn [step is_cut provenance_eqb andb cuts_mip].
      * counter_case (cuts_mip st !! s).
      * rewrite lookup_alter. destruct (decide (s' = s)) as [->|Hne].
        -- rewrite Z.eqb_refl. counter_case (cuts_mip st !! s).
        -- destruct (Z.eqb_spec s s'); [congruence|].
           counter_case (cuts_mip st !! s).
      * counter_case (cuts_mip st !! s).
      * destruct (best st) as [[y0 v0]|]; [destruct (flt v v0)|];
          cbn [cuts_mip]; counter_case (cuts_mip st !! s).
    + intros s. rewrite Hrel, count_cons.
      destruct ev as [|s' [|]|y v]; cbn [step is_cut provenance_eqb andb cuts_rel].
      * counter_case (cuts_rel st !! s).
      * counter_case (cuts_rel st !! s).
      * rewrite lookup_alter. destruct (decide (s' = s)) as [->|Hne].
        -- rewrite Z.eqb_refl. counter_case (cuts_rel st !! s).
        -- destruct (Z.eqb_spec s s'); [congruence|].
           counter_case (cuts_rel st !! s).
      * destruct (best st) as [[y0 v0]|]; [destruct (flt v v0)|];
          cbn [cuts_rel]; counter_case (cuts_rel st !! s).
    + rewrite Hnodes, count_cons.
      destruct ev as [|s' [|]|y v]; cbn [step is_node nodes]; try lia.
      destruct (best st) as [[y0 v0]|]; [destruct (flt v v0)|]; cbn [nodes]; lia.
    + destruct Hbest as [Hsame|(y & v & Hin & Hb)].
      * rewrite Hsame.
        destruct (step_best st ev) as [Hst|(y & v & -> & Hst)].
        -- left. exact Hst.
        -- right. exists y, v. split; [now left | exact Hst].
      * right. exists y, v. split; [now right | exact Hb].
Qed.

(** C7.  The solve operation takes the instance and returns the Result:
    an objective value, an opening vector with one entry per facility,
    the elapsed time, a counter of incumbent-node cuts and one of
    relaxation-node cuts for every scenario of [S], each holding the
    number of cuts of that provenance added for the scenario, and the
    number of branch-and-bound nodes visited. *)
Theorem solve_returns_result search clock (data : Data.t) (r : Result) :
  solve_stochastic_cflp search clock data = Some r ->
  (exists opening,
     In (incumbent_found opening (objective_value r)) (search data)
     /\ locations r = map opening (Data.J data))
  /\ length (locations r) = length (Data.J data)
  /\ solution_time r = clock data
  /\ (forall s, In s (Data.S data) ->
        dict_getitem (num_cuts_mip r) s
        = inr (count (is_cut found_at_integer_incumbent s) (search data))
        /\ dict_getitem (num_cuts_rel r) s
           = inr (count (is_cut found_at_relaxation_node s) (search data)))
  /\ num_bnb_nodes r = count is_node (search data).
Proof.
  unfold solve_stochastic_cflp, assemble. intros Hsolve.
  destruct (run_bookkeeping (search data) (start data))
    as (Hmip & Hrel & Hnodes & Hbest).
  destruct (best (fold_left step (search data) (start data)))
    as [[y v]|] eqn:Hb; [|discriminate].
  injection Hsolve as <-.
  cbn [objective_value locations solution_time num_cuts_mip num_cuts_rel
       num_bnb_nodes].
  repeat split.
  - destruct Hbest as [Hsame|(y' & v' & Hin & Hb')].
    + cbn in Hsame. discriminate.
    + injection Hb' as <- <-. exists y. split; [exact Hin | reflexivity].
  - apply length_map.
  - unfold dict_getitem. rewrite Hmip. cbn [start cuts_mip].
    rewrite zero_counters_lookup by assumption. reflexivity.
  - unfold dict_getitem. rewrite Hrel. cbn [start cuts_rel].
    rewrite zero_counters_lookup by assumption. reflexivity.
  - rewrite Hnodes. cbn [start nodes]. lia.
Qed.

Section Script.
Context {G : Type} `{RandomState G}.

(** What a completed run of the script has done: it has read the
    instance, called the solver on it, and computed the report from the
    solution and the instance as the call left it. *)
Lemma main_inv solve text (g : G) r g' :
  main solve text g = inr (r, g') ->
  exists d g1 opened cuts cuts_rel,
    read_dataset text default_num_scenarios default_variance_factor g
    = inr (d, g1)
    /\ solve d g1 = inr ((run_solution r, run_data r), g')
    /\ open_facilities (locations (run_solution r)) (Data.J (run_data r))
       = inr opened
    /\ total_cuts (num_cuts_mip (run_solution r)) (Data.S (run_data r)) = inr cuts
    /\ total_cuts (num_cuts_rel (run_solution r)) (Data.S (run_data r))
       = inr cuts_rel
    /\ run_report r
       = mk_report (objective_value (run_solution r)) opened
           (solution_time (run_solution r)) cuts cuts_rel
           (num_bnb_nodes (run_solution r)).
Proof.
  unfold main. intros Hrun.
  apply bind_inr in Hrun as (d & g1 & Hread & Hrun).
  apply bind_inr in Hrun as ([sol d'] & g2 & Hsolve & Hrun).
  apply bind_inr in Hrun as (opened & g3 & Hopen & Hrun).
  apply lift_inr in Hopen as [Hopen ->].
  apply bind_inr in Hrun as (cuts & g4 & Hcuts & Hrun).
  apply lift_inr in Hcuts as [Hcuts ->].
  apply bind_inr in Hrun as (cuts_rel & g5 & Hrel & Hrun).
  apply lift_inr in Hrel as [Hrel ->].
  unfold ret in Hrun. injection Hrun as <- <-.
  exists d, g1, opened, cuts, cuts_rel. cbn [run_data run_solution run_report].
  repeat split; assumption.
Qed.

(** The solver of the specification leaves the instance and the
    generator alone, and is deterministic but for the time it reports. *)
Lemma solver_inv search clock d (g : G) sol d' g' :
  solver search clock d g = inr ((sol, d'), g') ->
  solve_stochastic_cflp search clock d = Some sol /\ d' = d /\ g' = g.
Proof.
  unfold solver.
  destruct (solve_stochastic_cflp search clock d) as [r|]; [|discriminate].
  intros [= <- <- <-]. repeat split.
Qed.

Lemma solver_read_only search clock :
  read_only (G := G) (solver search clock).
Proof.
  intros d g sol d' g' Hsolve. now apply solver_inv in Hsolve as (_ & -> & _).
Qed.

Lemma solver_deterministic_but_time search clock1 clock2 :
  deterministic_but_time (G := G) (solver search clock1) (solver search clock2).
Proof.
  intros data g1 g2. unfold solver, solve_stochastic_cflp, assemble.
  destruct (best (fold_left step (search data) (start data)))
    as [[y v]|]; [|reflexivity].
  repeat split.
Qed.

(** Two completed runs on one file agree on what is read from the file;
    with solvers that are deterministic but for the time, they agree on
    everything but the time as soon as they sampled the same scenarios. *)
Lemma main_deterministic_solvers solve1 solve2 text (g1 g2 : G) r1 g1' r2 g2' :
  deterministic_but_time solve1 solve2 ->
  main solve1 text g1 = inr (r1, g1') ->
  main solve2 text g2 = inr (r2, g2') ->
  exists d1 h1 d2 h2,
    read_dataset text default_num_scenarios default_variance_factor g1
    = inr (d1, h1)
    /\ read_dataset text default_num_scenarios default_variance_factor g2
       = inr (d2, h2)
    /\ solve1 d1 h1 = inr ((run_solution r1, run_data r1), g1')
    /\ solve2 d2 h2 = inr ((run_solution r2, run_data r2), g2')
    /\ (Data.I d1 = Data.I d2
        /\ Data.J d1 = Data.J d2
        /\ Data.S d1 = Data.S d2
        /\ Data.demands d1 = Data.demands d2
        /\ Data.capacities d1 = Data.capacities d2
        /\ Data.fixed_costs d1 = Data.fixed_costs d2
        /\ Data.shipment_costs d1 = Data.shipment_costs d2)
    /\ (Data.scenarios d1 = Data.scenarios d2 ->
        d1 = d2
        /\ run_data r1 = run_data r2
        /\ same_but_time (run_solution r1) (run_solution r2)
        /\ same_report_but_time (run_report r1) (run_report r2)).
Proof.
  intros Hdet Hrun1 Hrun2.
  apply main_inv in Hrun1
    as (d1 & h1 & o1 & c1 & cr1 & Hread1 & Hsolve1 & Hopen1 & Hcuts1 & Hrel1
        & Hrep1).
  apply main_inv in Hrun2
    as (d2 & h2 & o2 & c2 & cr2 & Hread2 & Hsolve2 & Hopen2 & Hcuts2 & Hrel2
        & Hrep2).
  exists d1, h1, d2, h2.
  split; [exact Hread1|]. split; [exact Hread2|].
  split; [exact Hsolve1|]. split; [exact Hsolve2|].
  destruct r1 as [e1 sol1 rep1], r2 as [e2 sol2 rep2].
  cbn [run_data run_solution run_report] in *.
  apply read_dataset_inv in Hread1
    as (m & n & fac & dem & ship & ws' & scen1 & mx1 & Hwords1 & _ & Hmx1 & ->).
  apply read_dataset_inv in Hread2
    as (m2 & n2 & fac2 & dem2 & ship2 & ws2 & scen2 & mx2 & Hwords2 & _ & Hmx2 & ->).
  rewrite Hwords1 in Hwords2. injection Hwords2 as <- <- <- <- <- <-.
  cbn [Data.I Data.J Data.S Data.demands Data.capacities Data.fixed_costs
       Data.shipment_costs Data.scenarios] in *.
  split; [repeat split|].
  intros <-. rewrite Hmx1 in Hmx2. injection Hmx2 as <-.
  specialize (Hdet (Data.mk (arange n) (arange m) (arange default_num_scenarios)
                      dem scen1 (array_int (map fst fac))
                      (array_int (map snd fac)) ship mx1) h1 h2).
  rewrite Hsolve1, Hsolve2 in Hdet.
  destruct Hdet as ((Hobj & Hloc & Hmip & Hcrel & Hnodes) & <-).
  rewrite Hloc, Hopen2 in Hopen1. injection Hopen1 as ->.
  rewrite Hmip, Hcuts2 in Hcuts1. injection Hcuts1 as ->.
  rewrite Hcrel, Hrel2 in Hrel1. injection Hrel1 as ->.
  split; [reflexivity|]. split; [reflexivity|].
  split; [repeat split; assumption|].
  rewrite Hrep1, Hrep2. repeat split; cbn; assumption.
Qed.

(** C3, as amended.  The pipeline is reproducible up to the scenarios it
    samples and the time it takes.  With the solver of the specification
    (any search, which is a function of the instance, and any two
    clocks), two completed runs of the script on the same file, from any
    two states of the random generator, which the script never seeds,
    agree on every field read from the file; and as soon as they sampled
    the same scenarios they agree on the whole instance and on objective,
    opening vector, cut counts and node count, in the solution and in the
    report. *)
Theorem main_reproducible_up_to_sampling
    search clock1 clock2 text (g1 g2 : G) r1 g1' r2 g2' :
  main (solver search clock1) text g1 = inr (r1, g1') ->
  main (solver search clock2) text g2 = inr (r2, g2') ->
  (Data.I (run_data r1) = Data.I (run_data r2)
   /\ Data.J (run_data r1) = Data.J (run_data r2)
   /\ Data.S (run_data r1) = Data.S (run_data r2)
   /\ Data.demands (run_data r1) = Data.demands (run_data r2)
   /\ Data.capacities (run_data r1) = Data.capacities (run_data r2)
   /\ Data.fixed_costs (run_data r1) = Data.fixed_costs (run_data r2)
   /\ Data.shipment_costs (run_data r1) = Data.shipment_costs (run_data r2))
  /\ (Data.scenarios (run_data r1) = Data.scenarios (run_data r2) ->
      run_data r1 = run_data r2
      /\ same_but_time (run_solution r1) (run_solution r2)
      /\ same_report_but_time (run_report r1) (run_report r2)).
Proof.
  intros Hrun1 Hrun2.
  destruct (main_deterministic_solvers _ _ _ _ _ _ _ _ _
              (solver_deterministic_but_time search clock1 clock2) Hrun1 Hrun2)
    as (d1 & h1 & d2 & h2 & _ & _ & Hsolve1 & Hsolve2 & Hfile & Hsame).
  apply solver_inv in Hsolve1 as (_ & Hd1 & _).
  apply solver_inv in Hsolve2 as (_ & Hd2 & _).
  subst d1 d2. split; [exact Hfile|].
  intros Hscen. destruct (Hsame Hscen) as (_ & Hdata & Hsol & Hrep).
  split; [exact Hdata|]. split; [exact Hsol | exact Hrep].
Qed.

(** C6, as amended.  The statements of the script only read the
    instance: after a completed run the instance bound to [data] is the
    one [read_dataset] returned as the call of the solver left it, and so
    it is the one [read_dataset] returned whenever the solver assigns to
    none of its fields.  Nothing else protects it: the type does not. *)
Theorem main_reads_data_only solve text (g : G) r g' :
  main solve text g = inr (r, g') ->
  exists d g1,
    read_dataset text default_num_scenarios default_variance_factor g
    = inr (d, g1)
    /\ solve d g1 = inr ((run_solution r, run_data r), g')
    /\ (read_only solve -> run_data r = d).
Proof.
  intros Hrun.
  apply main_inv in Hrun as (d & g1 & _ & _ & _ & Hread & Hsolve & _).
  exists d, g1. split; [exact Hread|]. split; [exact Hsolve|].
  intros Hro. exact (Hro _ _ _ _ _ Hsolve).
Qed.

End Script.

(* ===================================================================== *)
(** * The properties on concrete files                                   *)
(* ===================================================================== *)

(** The builtins on a few words. *)
Example int_examples :
  map int ["12"; "-5"; "+7"; "1_000"; "007"; "1__0"; "_1"; "1."; ""]%string
  = [inr 12; inr (-5); inr 7; inr 1000; inr 7;
     inl ValueError; inl ValueError; inl ValueError; inl ValueError].
Proof. reflexivity. Qed.

(** [np.array] on integers: all within 64 signed bits, such a one beside
    one of 64 unsigned bits (2^63 + 1, stored as the float 2^63), two of
    64 unsigned bits, one beyond 64 bits, and none. *)
Example array_int_examples :
  array_int [10; -5] = mk_int_array int64 [int_item 10; int_item (-5)]
  /\ array_int [9223372036854775809; 5]
     = mk_int_array float64
         [float_item (S754_finite false 4503599627370496 11);
          float_item (S754_finite false 5629499534213120 (-50))]
  /\ array_int [9223372036854775809; 9223372036854775810]
     = mk_int_array uint64
         [int_item 9223372036854775809; int_item 9223372036854775810]
  /\ array_int [18446744073709551616; 5]
     = mk_int_array object [int_item 18446744073709551616; int_item 5]
  /\ array_int [] = mk_int_array float64 [].
Proof. repeat split; vm_compute; reflexivity. Qed.

Example float_examples :
  map float_of_str
      ["0.2"; "0.5"; "1"; "-1"; "1e0"; ".5"; "-0.0"; "1e400"; "Inf"; "nan";
       "4.9e-324"; "1e"; "x"]%string
  = [inr default_variance_factor; inr half; inr one; inr minus_one; inr one;
     inr half; inr (S754_zero true); inr (S754_infinity false);
     inr (S754_infinity false); inr S754_nan;
     inr (S754_finite false 1 (-1074)); inl ValueError; inl ValueError].
Proof. vm_compute. reflexivity. Qed.

Example word_reader_example :
  word_reader example_text
  = ["2"; "3"; "10"; "100"; "20"; "200"; "1"; "2.5"; "3";
     "1"; "2"; "3"; "4"; "5"; "6"]%string.
Proof. vm_compute. reflexivity. Qed.

(** The example instance: customers 0..2, facilities 0..1, two scenarios;
    the draws around 1, 2.5, 3 with variates 0, 1, 0 and then 1, 0, 1. *)
Example example_data_fields :
  Data.I example_data = [0; 1; 2]
  /\ Data.J example_data = [0; 1]
  /\ Data.S example_data = [0; 1]
  /\ Data.capacities example_data
     = mk_int_array int64 [int_item 10; int_item 20]
  /\ Data.fixed_costs example_data
     = mk_int_array int64 [int_item 100; int_item 200]
  /\ shape (Data.scenarios example_data) = [2%nat; 3%nat]
  /\ shape (Data.shipment_costs example_data) = [3%nat; 2%nat]
  /\ mapR float_of_str ["1"; "3"; "3"; "1.2"; "2.5"; "3.6"]%string
     = inr (flat (Data.scenarios example_data)).
Proof. repeat split; vm_compute; reflexivity. Qed.

(** The run of [read_dataset] on the example file. *)
Lemma example_run_eq :
  read_dataset example_text 2 default_variance_factor example_stream
  = inr (example_data, mk_gauss_stream (variates example_stream) 6).
Proof. vm_compute. reflexivity. Qed.


(** C5 on the example file. *)
Lemma shipment_costs_transposed_witness :
  read_dataset example_text 2 default_variance_factor example_stream
  = inr (example_data, mk_gauss_stream (variates example_stream) 6)
  /\ exists num_facilities num_customers,
    header (word_reader example_text) = Some (num_facilities, num_customers)
    /\ forall i j, 0 <= i < num_customers -> 0 <= j < num_facilities ->
         exists word cost,
           cost_word (word_reader example_text) num_facilities num_customers j i
           = Some word
           /\ float_of_str word = inr cost
           /\ getitem2 (Data.shipment_costs example_data) i j = inr cost.
Proof.
  assert (read_dataset example_text 2 default_variance_factor example_stream
          = inr (example_data, mk_gauss_stream (variates example_stream) 6))
    as Hrun by (vm_compute; reflexivity).
  split; [exact Hrun|].
  exact (shipment_costs_transposed _ _ _ _ _ _ Hrun).
Defined.

(** On the example file, the cost from facility 1 to customer 2 is the
    last number, 6. *)
Example example_cost :
  cost_word (word_reader example_text) 2 3 1 2 = Some "6"%string
  /\ getitem2 (Data.shipment_costs example_data) 2 1
     = inr (S754_finite false 6755399441055744 (-50)).
Proof. split; vm_compute; reflexivity. Qed.

(** C1, counterexample.  A file whose only facility has capacity -5 is
    read without complaint and the capacity is stored as it stands; so is
    a file with two numbers more than its header declares. *)
Lemma negative_capacity_accepted :
  (exists d g',
     read_dataset negative_capacity_text default_num_scenarios
       default_variance_factor example_stream = inr (d, g')
     /\ Data.capacities d = mk_int_array int64 [int_item (-5)])
  /\ (exists d g',
        read_dataset surplus_text default_num_scenarios
          default_variance_factor example_stream = inr (d, g')
        /\ shape (Data.shipment_costs d) = [1%nat; 1%nat]).
Proof.
  split; eexists _, _; split; vm_compute; reflexivity.
Qed.

(** C1, as amended, on a file one number short. *)
Lemma read_dataset_rejects_short_file_witness :
  header (word_reader short_text) = Some (2, 3)
  /\ (length (word_reader short_text) < words_declared 2 3)%nat
  /\ exists e,
       read_dataset short_text default_num_scenarios default_variance_factor
         example_stream = inl e.
Proof.
  assert (header (word_reader short_text) = Some (2, 3)) as Hhead
    by (vm_compute; reflexivity).
  assert (length (word_reader short_text) < words_declared 2 3)%nat as Hshort
    by (vm_compute; lia).
  split; [exact Hhead|]. split; [exact Hshort|].
  exact (read_dataset_rejects_short_file short_text default_num_scenarios
           default_variance_factor example_stream 2 3 Hhead Hshort).
Defined.


(** C4, counterexample.  On a demand of -1 the call raises instead of
    returning a 1 x 1 array. *)
Lemma generate_scenarios_negative_demand_raises :
  generate_scenarios [minus_one] 1 default_variance_factor example_stream
  = inl ValueError.
Proof. vm_compute. reflexivity. Qed.

(** C4, as amended, on the demands 1 and 0. *)
Lemma generate_scenarios_clamped_witness :
  1 <= 2
  /\ some_scale_refused default_variance_factor [one; fzero] = false
  /\ exists a,
    generate_scenarios [one; fzero] 2 default_variance_factor example_stream
    = inr (a, snd (sample_rows default_variance_factor [one; fzero] 2
                     example_stream))
    /\ shape a = [2%nat; 2%nat]
    /\ Forall nonnegative (flat a).
Proof.
  assert (1 <= 2) as Hk by lia.
  assert (some_scale_refused default_variance_factor [one; fzero] = false)
    as Hok by (vm_compute; reflexivity).
  split; [exact Hk|]. split; [exact Hok|].
  destruct (generate_scenarios_clamped [one; fzero] 2 default_variance_factor
              example_stream Hk Hok) as (a & Hrun & Hshape & _ & _ & Hnn).
  exists a. repeat split; assumption.
Defined.

(** C9, counterexample.  With no scenario asked for nothing is sampled: a
    demand of -1 then makes no call fail, and what is returned is the
    empty one-dimensional array, of shape (0,). *)
Lemma generate_scenarios_negative_demand_returns :
  generate_scenarios [minus_one] 0 default_variance_factor example_stream
  = inr (mk_ndarray [0%nat] [], example_stream).
Proof. vm_compute. reflexivity. Qed.

(** A demand of -0.0 is [>= 0], yet its scale -0.0 has the sign bit set
    and is refused. *)
Example generate_scenarios_negative_zero :
  nonnegative (S754_zero true)
  /\ generate_scenarios [S754_zero true] 1 default_variance_factor example_stream
     = inl ValueError.
Proof. split; vm_compute; reflexivity. Qed.

(** C9, as amended, on the demands 1 and NaN. *)
Lemma generate_scenarios_domain_witness :
  1 <= 3
  /\ (existsb negative_signed [one; S754_nan] = false ->
     exists a g',
       generate_scenarios [one; S754_nan] 3 default_variance_factor
         example_stream = inr (a, g')
       /\ shape a = [3%nat; 2%nat])
  /\ (existsb negative_signed [one; S754_nan] = true ->
        generate_scenarios [one; S754_nan] 3 default_variance_factor
          example_stream = inl ValueError).
Proof.
  assert (1 <= 3) as Hk by lia.
  split; [exact Hk|].
  exact (generate_scenarios_domain [one; S754_nan] 3 7205759403792794 (-55)
           example_stream Hk).
Defined.

(** C8 on the example file, laid out on five lines and on one. *)
Lemma read_dataset_line_insensitive_witness :
  split example_text = split example_text_one_line
  /\ parsed_fields (read_dataset example_text 2 default_variance_factor example_stream)
  = parsed_fields (read_dataset example_text_one_line 2 default_variance_factor
                     zero_stream).
Proof.
  assert (split example_text = split example_text_one_line) as Hsplit
    by (vm_compute; reflexivity).
  split; [exact Hsplit|].
  exact (read_dataset_line_insensitive example_text example_text_one_line 2
           default_variance_factor example_stream zero_stream Hsplit).
Defined.

(** C7 on the example instance and search. *)
Lemma solve_returns_result_witness :
  exists r,
    solve_stochastic_cflp example_search (fun _ => one) example_data = Some r
    /\ length (locations r) = 2%nat
    /\ dict_getitem (num_cuts_mip r) 1 = inr 1
    /\ dict_getitem (num_cuts_rel r) 0 = inr 1
    /\ num_bnb_nodes r = 2.
Proof.
  destruct (solve_stochastic_cflp example_search (fun _ => one) example_data)
    as [r|] eqn:Hsolve.
  - exists r. split; [reflexivity|].
    destruct (solve_returns_result _ _ _ _ Hsolve) as (_ & Hlen & _ & Hcuts & Hn).
    destruct (Hcuts 1) as [Hmip _]; [cbn; auto|].
    destruct (Hcuts 0) as [_ Hrel]; [cbn; auto|].
    repeat split; assumption.
  - cbv in Hsolve. discriminate.
Defined.

(** C3, counterexample.  Two runs of the pipeline on one file, a single
    facility of capacity 5 and a single customer of nominal demand 5,
    with the example search behind the root test of the specification.
    From a generator whose variates are all 0 every scenario demand is
    5: the solve returns a Result and the script completes.  From one
    whose variates alternate between 0 and 1 some scenario demand is 6:
    the instance is found infeasible at the root, the solve returns no
    Result and the script does not complete. *)
Lemma rerun_differs :
  exists d1 h1 d2 h2 r1,
    read_dataset single_text default_num_scenarios default_variance_factor
      zero_stream = inr (d1, h1)
    /\ read_dataset single_text default_num_scenarios default_variance_factor
         example_stream = inr (d2, h2)
    /\ solve_stochastic_cflp (rooted example_search) (fun _ => one) d1 = Some r1
    /\ solve_stochastic_cflp (rooted example_search) (fun _ => one) d2 = None
    /\ (exists r g,
          main rooted_solver single_text zero_stream = inr (r, g)
          /\ run_solution r = r1)
    /\ (exists e, main rooted_solver single_text example_stream = inl e).
Proof.
  destruct (read_dataset single_text default_num_scenarios
              default_variance_factor zero_stream)
    as [e|[d1 h1]] eqn:Hread1; [vm_compute in Hread1; discriminate|].
  destruct (read_dataset single_text default_num_scenarios
              default_variance_factor example_stream)
    as [e|[d2 h2]] eqn:Hread2; [vm_compute in Hread2; discriminate|].
  destruct (solve_stochastic_cflp (rooted example_search) (fun _ => one) d1)
    as [r1|] eqn:Hsolve1.
  2: { vm_compute in Hread1. injection Hread1 as <- <-.
       vm_compute in Hsolve1. discriminate. }
  exists d1, h1, d2, h2, r1.
  split; [reflexivity|]. split; [reflexivity|]. split; [exact Hsolve1|].
  split.
  { vm_compute in Hread2. injection Hread2 as <- <-. vm_compute. reflexivity. }
  split.
  - destruct (main rooted_solver single_text zero_stream)
      as [e|[r g]] eqn:Hrun; [vm_compute in Hrun; discriminate|].
    exists r, g. split; [reflexivity|].
    apply main_inv in Hrun as (d & g1 & _ & _ & _ & Hread & Hsolve & _).
    rewrite Hread1 in Hread. injection Hread as <- <-.
    apply solver_inv in Hsolve as (Hsolve & _).
    rewrite Hsolve1 in Hsolve. now injection Hsolve.
  - destruct (main rooted_solver single_text example_stream)
      as [e|[r g]] eqn:Hrun; [eauto|vm_compute in Hrun; discriminate].
Qed.

(** C3 on the example file: a run and a later, slower one from a
    generator that happens to yield the same variates. *)
Lemma main_reproducible_up_to_sampling_witness :
  exists r1 g1 r2 g2,
    main (solver example_search (fun _ => one)) example_text example_stream
    = inr (r1, g1)
    /\ main (solver example_search (fun _ => half)) example_text forty_stream
       = inr (r2, g2)
    /\ run_data r1 = run_data r2
    /\ same_but_time (run_solution r1) (run_solution r2)
    /\ same_report_but_time (run_report r1) (run_report r2).
Proof.
  destruct (main (solver example_search (fun _ => one)) example_text
              example_stream)
    as [e|[r1 g1]] eqn:Hrun1; [vm_compute in Hrun1; discriminate|].
  destruct (main (solver example_search (fun _ => half)) example_text
              forty_stream)
    as [e|[r2 g2]] eqn:Hrun2; [vm_compute in Hrun2; discriminate|].
  exists r1, g1, r2, g2. split; [reflexivity|]. split; [reflexivity|].
  destruct (main_reproducible_up_to_sampling _ _ _ _ _ _ _ _ _ _ Hrun1 Hrun2)
    as [_ Hsame].
  apply Hsame.
  remember (run_data r1) as d1. remember (run_data r2) as d2.
  vm_compute in Hrun1. vm_compute in Hrun2.
  injection Hrun1 as Hr1 _. injection Hrun2 as Hr2 _.
  rewrite Heqd1, Heqd2, <- Hr1, <- Hr2. reflexivity.
Defined.

(** C6, counterexample.  Assigning to a field of an instance is not
    refused: the capacities of the example instance can be overwritten. *)
Lemma data_field_assignment_succeeds :
  exists d',
    Data.setattr example_data Data.f_capacities (array_int [-1; -1]) = inr d'
    /\ Data.capacities d' = array_int [-1; -1]
    /\ Data.capacities d' <> Data.capacities example_data.
Proof.
  eexists. split; [reflexivity|]. split; [reflexivity|]. discriminate.
Qed.

(** Nor does the script protect the instance: with a solver that assigns
    to the facility index list, the script lists the open facilities of
    the list as assigned, not of the one [read_dataset] returned. *)
Lemma main_sees_assignment :
  exists d g1 r g',
    read_dataset example_text default_num_scenarios default_variance_factor
      example_stream = inr (d, g1)
    /\ main assigning_solver example_text example_stream = inr (r, g')
    /\ Data.J d = [0; 1]
    /\ Data.J (run_data r) = [0]
    /\ printed_open_facilities (run_report r) = [0].
Proof.
  destruct (read_dataset example_text default_num_scenarios
              default_variance_factor example_stream)
    as [e|[d g1]] eqn:Hread; [vm_compute in Hread; discriminate|].
  destruct (main assigning_solver example_text example_stream)
    as [e|[r g']] eqn:Hrun; [vm_compute in Hrun; discriminate|].
  exists d, g1, r, g'. split; [reflexivity|]. split; [reflexivity|].
  vm_compute in Hread. injection Hread as <- _.
  vm_compute in Hrun. injection Hrun as <- _.
  repeat split.
Qed.

(** C6, as amended, on the example file and solver. *)
Lemma main_reads_data_only_witness :
  exists r g',
    main example_solver example_text example_stream = inr (r, g')
    /\ exists g1,
         read_dataset example_text default_num_scenarios
           default_variance_factor example_stream = inr (run_data r, g1).
Proof.
  destruct (main example_solver example_text example_stream)
    as [e|[r g']] eqn:Hrun; [vm_compute in Hrun; discriminate|].
  exists r, g'. split; [reflexivity|].
  destruct (main_reads_data_only _ _ _ _ _ Hrun) as (d & g1 & Hread & _ & Hro).
  exists g1. rewrite (Hro (solver_read_only _ _)). exact Hread.
Defined.

(* ===================================================================== *)
(** * Further properties of [word_reader]                                *)
(* ===================================================================== *)

Lemma all_chars_snoc (p : ascii -> bool) (w : string) (c : ascii) :
  all_chars p (snoc w c) = (all_chars p w && p c)%bool.
Proof.
  unfold snoc. induction w as [|x w IH].
  - rewrite string_app_empty_l. cbn. now rewrite andb_true_r.
  - rewrite string_app_cons. cbn [all_chars]. rewrite IH. apply andb_assoc.
Qed.

Lemma snoc_not_empty (w : string) (c : ascii) : snoc w c <> EmptyString.
Proof. unfold snoc. destruct w; [rewrite string_app_empty_l | rewrite string_app_cons]; discriminate. Qed.

Lemma is_word_snoc (w : string) (c : ascii) :
  w = EmptyString \/ is_word w = true -> isspace c = false ->
  is_word (snoc w c) = true.
Proof.
  intros Hw Hc. unfold is_word.
  destruct (snoc w c) eqn:Hs; [now apply snoc_not_empty in Hs|].
  rewrite <- Hs, all_chars_snoc, Hc. cbn [negb]. rewrite andb_true_r.
  destruct Hw as [->|Hw]; [reflexivity|].
  unfold is_word in Hw. now destruct w.
Qed.

Lemma split_from_words (s : string) : forall w0 : string,
  w0 = EmptyString \/ is_word w0 = true ->
  Forall (fun w => is_word w = true) (split_from w0 s).
Proof.
  induction s as [|c s IH]; intros w0 Hw0.
  - cbn [split_from]. destruct Hw0 as [->|Hw0]; [constructor|].
    destruct w0; [discriminate|]. cbn [emit]. constructor; [assumption|constructor].
  - cbn [split_from]. destruct (isspace c) eqn:Hc.
    + apply Forall_app. split; [|apply IH; now left].
      destruct Hw0 as [->|Hw0]; [constructor|].
      destruct w0; [discriminate|]. cbn [emit]. constructor; [assumption|constructor].
    + apply IH. right. now apply is_word_snoc.
Qed.

(** A whitespace-free run of characters extends the word being read. *)
Lemma split_from_run (w : string) : forall (w0 s : string),
  all_chars (fun c => negb (isspace c)) w = true ->
  split_from w0 (w ++ s) = split_from (w0 ++ w) s.
Proof.
  induction w as [|c w IH]; intros w0 s Hw.
  - now rewrite string_app_empty_l, string_app_empty_r.
  - cbn [all_chars] in Hw. apply andb_prop in Hw as [Hc Hw].
    rewrite string_app_cons. cbn [split_from].
    apply negb_true_iff in Hc. rewrite Hc.
    rewrite IH by assumption. now rewrite snoc_app.
Qed.

(** A run of whitespace ends the word being read, if any. *)
Lemma split_from_gap (sep : string) : forall (w0 s : string),
  blank sep = true -> sep <> EmptyString ->
  split_from w0 (sep ++ s) = emit w0 ++ split s.
Proof.
  induction sep as [|c sep IH]; intros w0 s Hb Hne; [congruence|].
  cbn [blank all_chars] in Hb. apply andb_prop in Hb as [Hc Hb].
  rewrite string_app_cons. cbn [split_from]. rewrite Hc. f_equal.
  destruct sep as [|c' sep'].
  - now rewrite string_app_empty_l.
  - rewrite (IH EmptyString s Hb) by discriminate. reflexivity.
Qed.

Lemma split_blank (s : string) : blank s = true -> split s = [].
Proof.
  unfold split. induction s as [|c s IH]; intros Hb; [reflexivity|].
  cbn [blank all_chars] in Hb. apply andb_prop in Hb as [Hc Hb].
  cbn [split_from]. rewrite Hc. cbn [emit app]. now apply IH.
Qed.

Lemma split_join (sep : string) (ws : list string) :
  blank sep = true -> sep <> EmptyString ->
  Forall (fun w => is_word w = true) ws ->
  split (join sep ws) = ws.
Proof.
  intros Hb Hne Hall. induction Hall as [|w ws Hw Hall IH]; [reflexivity|].
  assert (all_chars (fun c => negb (isspace c)) w = true /\ emit w = [w])
    as [Hrun Hemit].
  { unfold is_word in Hw. destruct w; [discriminate|]. split; [exact Hw|reflexivity]. }
  destruct ws as [|w2 ws].
  - cbn [join]. unfold split.
    rewrite <- (string_app_empty_r w) at 1.
    rewrite split_from_run by assumption.
    rewrite string_app_empty_l. exact Hemit.
  - change (join sep (w :: w2 :: ws))
      with (w ++ sep ++ join sep (w2 :: ws))%string.
    unfold split at 1. rewrite split_from_run by assumption.
    rewrite string_app_empty_l, split_from_gap by assumption.
    now rewrite Hemit, IH.
Qed.

(** X1.  Every word [word_reader] yields is a word: it is not empty and
    contains no whitespace character. *)
Theorem word_reader_yields_words (text w : string) :
  In w (word_reader text) -> is_word w = true.
Proof.
  rewrite word_reader_split. intros Hin.
  pose proof (split_from_words text EmptyString (or_introl eq_refl)) as Hall.
  rewrite List.Forall_forall in Hall. now apply Hall.
Qed.

(** X2.  Writing words out with a separator of whitespace and reading
    them back is the identity: for words that are not empty and free of
    whitespace, and a separator that is not empty and all whitespace
    (spaces, tabs, line ends), [word_reader] on [sep.join(words)] yields
    exactly [words]. *)
Theorem word_reader_join (sep : string) (words : list string) :
  blank sep = true -> sep <> EmptyString ->
  Forall (fun w => is_word w = true) words ->
  word_reader (join sep words) = words.
Proof.
  intros Hb Hne Hall. rewrite word_reader_split. now apply split_join.
Qed.

(** X3.  The words of two texts put together with a whitespace character
    between them are the words of the first followed by the words of the
    second; in particular no word spans the junction. *)
Theorem word_reader_app (text1 text2 : string) (c : ascii) :
  isspace c = true ->
  word_reader (text1 ++ String c text2)
  = word_reader text1 ++ word_reader text2.
Proof.
  intros Hc. rewrite !word_reader_split. now apply split_space.
Qed.

Section BlankFile.
Context {G : Type} `{RandomState G}.

(** X4.  An empty file, or one of whitespace only, yields no word, and
    [read_dataset] on it raises [StopIteration], at the first [next]. *)
Theorem read_dataset_blank_file text k vf (g : G) :
  blank text = true ->
  word_reader text = [] /\ read_dataset text k vf g = inl StopIteration.
Proof.
  intros Hb.
  assert (word_reader text = []) as Hwords
    by (rewrite word_reader_split; now apply split_blank).
  split; [exact Hwords|].
  rewrite read_dataset_phases, Hwords. reflexivity.
Qed.

End BlankFile.

(* ===================================================================== *)
(** * Further properties of [read_dataset]                               *)
(* ===================================================================== *)

(** ** The exceptions it raises *)

Lemma raises_bind {St A B} (c : M St A) (k : A -> M St B) :
  raises_read_errors c -> (forall a, raises_read_errors (k a)) ->
  raises_read_errors (bind c k).
Proof.
  intros Hc Hk st e. unfold bind.
  destruct (c st) as [e'|[a st']] eqn:Hrun.
  - intros [= <-]. now apply (Hc st).
  - apply Hk.
Qed.

Lemma raises_ret {St A} (a : A) : raises_read_errors (@ret St A a).
Proof. intros st e. discriminate. Qed.

Lemma raises_next : raises_read_errors next.
Proof. intros [|w ws] e; cbn; [now intros [= <-] | discriminate]. Qed.

Lemma raises_lift {St A} (r : result A) :
  (forall e, r = inl e -> read_error e = true) ->
  raises_read_errors (@lift St A r).
Proof.
  intros Hr st e. unfold lift. destruct r as [e'|a]; [|discriminate].
  intros [= <-]. now apply Hr.
Qed.

Lemma raises_replicateM {St A} (c : M St A) (n : nat) :
  raises_read_errors c -> raises_read_errors (replicateM n c).
Proof.
  intros Hc. induction n as [|n IH]; cbn [replicateM].
  - apply raises_ret.
  - apply raises_bind; [exact Hc|]. intros x.
    apply raises_bind; [exact IH|]. intros xs. apply raises_ret.
Qed.

Lemma int_error (w : string) (e : exn) : int w = inl e -> e = ValueError.
Proof.
  unfold int. destruct (sign w) as [neg s].
  destruct (digitpart s) as [[ds [|c r]]|]; try discriminate; now intros [= <-].
Qed.

Lemma float_of_str_error (w : string) (e : exn) :
  float_of_str w = inl e -> e = ValueError.
Proof.
  unfold float_of_str. destruct (sign w) as [neg s].
  destruct (String.eqb (lowercase s) "inf" || String.eqb (lowercase s) "infinity")%bool;
    [discriminate|].
  destruct (String.eqb (lowercase s) "nan"); [discriminate|].
  destruct (number s) as [[[ip fp] r]|]; [|now intros [= <-]].
  destruct (exponent r) as [[x [|c r']]|]; try discriminate; now intros [= <-].
Qed.

Lemma reshape_error {A} (xs : list A) (m n : Z) (e : exn) :
  reshape xs m n = inl e -> e = ValueError.
Proof.
  unfold reshape.
  repeat match goal with
         | |- context [if ?b then _ else _] => destruct b
         end; try discriminate; now intros [= <-].
Qed.

Lemma raises_read_int : raises_read_errors (bind next (fun w => lift (int w))).
Proof.
  apply raises_bind; [apply raises_next|]. intros w. apply raises_lift.
  intros e He. now rewrite (int_error w e He).
Qed.

Lemma raises_read_float :
  raises_read_errors (bind next (fun w => lift (float_of_str w))).
Proof.
  apply raises_bind; [apply raises_next|]. intros w. apply raises_lift.
  intros e He. now rewrite (float_of_str_error w e He).
Qed.

Lemma read_words_error ws e : read_words ws = inl e -> read_error e = true.
Proof.
  revert ws e. change (raises_read_errors read_words). unfold read_words.
  apply raises_bind; [apply raises_read_int|]. intros m.
  apply raises_bind; [apply raises_read_int|]. intros n.
  apply raises_bind.
  { apply raises_replicateM.
    apply raises_bind; [apply raises_next|]. intros w1.
    apply raises_bind.
    { apply raises_lift. intros e He. now rewrite (int_error w1 e He). }
    intros c. apply raises_bind; [apply raises_next|]. intros w2.
    apply raises_bind.
    { apply raises_lift. intros e He. now rewrite (int_error w2 e He). }
    intros f. apply raises_ret. }
  intros fac. apply raises_bind; [apply raises_replicateM, raises_read_float|].
  intros dem. apply raises_bind; [apply raises_replicateM, raises_read_float|].
  intros costs. apply raises_bind.
  { apply raises_lift. intros e He. now rewrite (reshape_error _ _ _ e He). }
  intros a. apply raises_ret.
Qed.

Section ReaderMore.
Context {G : Type} `{RandomState G}.

(** What follows a successful reading of the words: the sampling and the
    maximum succeed when at least one scenario is asked for and no scale
    is refused, and raise [ValueError] otherwise. *)
Lemma read_dataset_after_words text k vf (g : G) m n fac dem ship ws' :
  read_words (word_reader text) = inr ((m, n, fac, dem, ship), ws') ->
  (1 <= k /\ some_scale_refused vf dem = false
   /\ exists scen g' mx,
        generate_scenarios dem k vf g = inr (scen, g')
        /\ max_demand_sum scen (arange n) (arange k) = inr mx
        /\ read_dataset text k vf g
           = inr (Data.mk (arange n) (arange m) (arange k) dem scen
                    (array_int (map fst fac)) (array_int (map snd fac))
                    ship mx, g'))
  \/ ((k <= 0 \/ some_scale_refused vf dem = true)
      /\ read_dataset text k vf g = inl ValueError).
Proof.
  intros Hwords. rewrite read_dataset_phases, Hwords.
  apply read_words_inv in Hwords
    as (_ & _ & _ & dtoks & _ & _ & _ & _ & _ & _ & _ & _
        & Hdlen & Hdall & _).
  assert (length dem = Z.to_nat n) as Hdem.
  { rewrite <- (Forall2_length_eq _ _ _ Hdall). exact Hdlen. }
  destruct (Z_lt_le_dec k 1) as [Hk|Hk].
  - right. split; [left; lia|].
    rewrite generate_scenarios_none by lia.
    unfold max_demand_sum, arange, range, range_len.
    replace (Z.to_nat k) with 0%nat by lia. reflexivity.
  - destruct (some_scale_refused vf dem) eqn:Hbad.
    + right. split; [now right|].
      now rewrite generate_scenarios_refused by assumption.
    + left. split; [exact Hk|]. split; [reflexivity|].
      destruct (generate_scenarios_drawn dem k vf g Hk Hbad)
        as (a & g' & Hrun & Hs & Hl & _).
      rewrite Hrun.
      assert (max_demand_sum a (arange n) (arange k) = max (map sum (rows a)))
        as Hmax.
      { unfold arange. rewrite <- (range_to_nat n), <- (range_to_nat k), <- Hdem.
        now apply (max_demand_sum_rows a _ _ Hs Hl). }
      destruct (rows a) as [|r rs] eqn:Hr.
      { pose proof (rows_length a _ _ Hs) as Hlen. rewrite Hr in Hlen.
        cbn in Hlen. lia. }
      cbn [map max] in Hmax. rewrite Hmax.
      eexists a, g', _. split; [reflexivity|]. split; [exact Hmax|reflexivity].
Qed.

(** X5.  [read_dataset] raises nothing but [StopIteration] (the words ran
    out) and [ValueError] (a word is not a number, the dimensions cannot
    shape the costs, a scale is refused, or there is no scenario to take
    the maximum over); in particular no index of its own is ever out of
    range. *)
Theorem read_dataset_raises text k vf (g : G) e :
  read_dataset text k vf g = inl e -> e = StopIteration \/ e = ValueError.
Proof.
  intros Hrun.
  assert (read_error e = true) as He; [|destruct e; try discriminate; auto].
  destruct (read_words (word_reader text))
    as [e'|[[[[[m n] fac] dem] ship] ws']] eqn:Hwords.
  - rewrite read_dataset_phases, Hwords in Hrun. injection Hrun as <-.
    now apply read_words_error in Hwords.
  - destruct (read_dataset_after_words text k vf g _ _ _ _ _ _ Hwords)
      as [(_ & _ & scen & g' & mx & _ & _ & Hok)|[_ Hfail]].
    + rewrite Hok in Hrun. discriminate.
    + rewrite Hfail in Hrun. now injection Hrun as <-.
Qed.

(** X6.  [read_dataset] never returns an instance without scenarios: for
    [num_scenarios <= 0] it raises, whatever the file; and on a file that
    it reads successfully with some other arguments, what it raises is
    [ValueError], from the maximum over no scenario. *)
Theorem read_dataset_needs_a_scenario text k vf (g : G) :
  k <= 0 ->
  (exists e, read_dataset text k vf g = inl e)
  /\ (forall k1 vf1 (g1 : G) d g1',
        read_dataset text k1 vf1 g1 = inr (d, g1') ->
        read_dataset text k vf g = inl ValueError).
Proof.
  intros Hk.
  assert (forall r, read_words (word_reader text) = inr r ->
            read_dataset text k vf g = inl ValueError) as Hparsed.
  { intros [[[[[m n] fac] dem] ship] ws'] Hwords.
    destruct (read_dataset_after_words text k vf g _ _ _ _ _ _ Hwords)
      as [(Hk1 & _)|[_ Hfail]]; [lia | exact Hfail]. }
  split.
  - destruct (read_words (word_reader text)) as [e|r] eqn:Hwords.
    + exists e. now rewrite read_dataset_phases, Hwords.
    + exists ValueError. now apply (Hparsed r).
  - intros k1 vf1 g1 d g1' Hrun.
    apply read_dataset_inv in Hrun
      as (m & n & fac & dem & ship & ws' & _ & _ & Hwords & _).
    now apply (Hparsed _ Hwords).
Qed.

(** ** Words beyond those the header calls for *)

Lemma framed_bind {A B} (c : M (list string) A) (k : A -> M (list string) B) :
  framed c -> (forall a, framed (k a)) -> framed (bind c k).
Proof.
  intros Hc Hk ws b ws' extra Hrun.
  apply bind_inr in Hrun as (a & ws1 & Hrun1 & Hrun2).
  unfold bind. rewrite (Hc _ _ _ extra Hrun1). now apply Hk.
Qed.

Lemma framed_ret {A} (a : A) : framed (ret a).
Proof. intros ws b ws' extra [= <- <-]. reflexivity. Qed.

Lemma framed_next : framed next.
Proof. intros [|w ws] b ws' extra; [discriminate|]. now intros [= <- <-]. Qed.

Lemma framed_lift {A} (r : result A) : framed (lift r).
Proof.
  intros ws b ws' extra Hrun. apply lift_inr in Hrun as [-> ->]. reflexivity.
Qed.

Lemma framed_replicateM {A} (c : M (list string) A) (n : nat) :
  framed c -> framed (replicateM n c).
Proof.
  intros Hc. induction n as [|n IH]; cbn [replicateM].
  - apply framed_ret.
  - apply framed_bind; [exact Hc|]. intros x.
    apply framed_bind; [exact IH|]. intros xs. apply framed_ret.
Qed.

Lemma framed_read_words : framed read_words.
Proof.
  unfold read_words.
  repeat first
    [ apply framed_replicateM
    | apply framed_next
    | apply framed_lift
    | apply framed_ret
    | apply framed_bind; [|intros ?] ].
Qed.

(** X7.  [read_dataset] stops reading where the declared dimensions end:
    words that follow a file it reads successfully change nothing.  If
    the words of [text'] are those of [text] followed by any others, and
    the call succeeds on [text], it returns the same instance on [text'],
    from the same draws. *)
Theorem read_dataset_ignores_surplus text text' extra k vf (g : G) d g' :
  word_reader text' = word_reader text ++ extra ->
  read_dataset text k vf g = inr (d, g') ->
  read_dataset text' k vf g = inr (d, g').
Proof.
  intros Hmore Hrun. rewrite read_dataset_phases in *. rewrite Hmore.
  destruct (read_words (word_reader text))
    as [e|[[[[[m n] fac] dem] ship] ws']] eqn:Hwords; [discriminate|].
  now rewrite (framed_read_words _ _ _ extra Hwords).
Qed.

(** ** Where the fields come from *)

(** An array built from integers that all fit a signed 64-bit one
    stores each of them as it is. *)
Lemma result_type_int64 (xs : list Z) :
  Forall (fun x => fits_int64 x = true) xs ->
  fold_left (fun t y => promote_types t (discover y)) xs int64 = int64.
Proof.
  induction 1 as [|x xs Hx _ IH]; [reflexivity|].
  cbn [fold_left]. unfold discover at 2.
  change ((- 2 ^ 63 <=? x) && (x <? 2 ^ 63))%bool with (fits_int64 x).
  rewrite Hx. exact IH.
Qed.

Lemma array_int_exact (xs : list Z) :
  Forall (fun x => fits_int64 x = true) xs ->
  items (array_int xs) = map int_item xs.
Proof.
  intros Hall. unfold array_int. cbn [items].
  destruct Hall as [|x xs Hx Hall]; [reflexivity|].
  unfold result_type, discover at 2.
  change ((- 2 ^ 63 <=? x) && (x <? 2 ^ 63))%bool with (fits_int64 x).
  rewrite Hx, (result_type_int64 xs Hall). reflexivity.
Qed.

(** X8.  The facility block of the file is read pairwise and the demand
    block in order.  With header [m], [n] and words counted from 0,
    [capacities] is [np.array] of the integers at the words 2 + 2 j and
    [fixed_costs] that of the integers at the words 3 + 2 j, for the
    facilities [j] in order: entry [j] holds the integer as the array
    stores it, which is the integer itself when all of them fit a signed
    64-bit one.  And [demands[i]] is the float at word 2 + 2 m + i, for
    every customer [i] (a negative [m] reads no facility and counts as
    0). *)
Theorem read_dataset_fields_from_words text k vf (g : G) d g' :
  read_dataset text k vf g = inr (d, g') ->
  exists m n cs fs,
    header (word_reader text) = Some (m, n)
    /\ Data.capacities d = array_int cs
    /\ Data.fixed_costs d = array_int fs
    /\ (Forall (fun c => fits_int64 c = true) cs ->
        items (Data.capacities d) = map int_item cs)
    /\ (Forall (fun f => fits_int64 f = true) fs ->
        items (Data.fixed_costs d) = map int_item fs)
    /\ (forall j, 0 <= j < m ->
          exists w1 w2 c f,
            nth_error (word_reader text) (Z.to_nat (2 + 2 * j)) = Some w1
            /\ nth_error (word_reader text) (Z.to_nat (3 + 2 * j)) = Some w2
            /\ int w1 = inr c /\ int w2 = inr f
            /\ nth_error cs (Z.to_nat j) = Some c
            /\ nth_error fs (Z.to_nat j) = Some f
            /\ list_getitem (items (Data.capacities d)) j
               = inr (cast (dtype (Data.capacities d)) c)
            /\ list_getitem (items (Data.fixed_costs d)) j
               = inr (cast (dtype (Data.fixed_costs d)) f))
    /\ (forall i, 0 <= i < n ->
          exists w x,
            nth_error (word_reader text) (Z.to_nat (2 + 2 * Z.max m 0 + i))
            = Some w
            /\ float_of_str w = inr x
            /\ list_getitem (Data.demands d) i = inr x).
Proof.
  intros Hrun.
  apply read_dataset_inv in Hrun
    as (m & n & fac & dem & ship & ws' & scen & mx & Hwords & _ & _ & ->).
  apply read_words_inv in Hwords
    as (t0 & t1 & ftoks & dtoks & ctoks & costs & Hws & Ht0 & Ht1 & Hflen & Hfac
        & Hfnth & Hdlen & Hdall & _).
  exists m, n, (map fst fac), (map snd fac).
  rewrite Hws. unfold header. rewrite Ht0, Ht1.
  cbn [Data.capacities Data.fixed_costs Data.demands].
  unfold range_len in *.
  split; [reflexivity|]. split; [reflexivity|]. split; [reflexivity|].
  split; [apply array_int_exact|]. split; [apply array_int_exact|]. split.
  - intros j Hj.
    destruct (nth_error fac (Z.to_nat j)) as [[c f]|] eqn:Hpair;
      [|apply nth_error_None in Hpair; lia].
    destruct (Hfnth _ _ _ Hpair) as (w1 & w2 & Hw1 & Hw2 & Hc & Hf).
    exists w1, w2, c, f.
    replace (Z.to_nat (2 + 2 * j))
      with (Datatypes.S (Datatypes.S (2 * Z.to_nat j))) by lia.
    replace (Z.to_nat (3 + 2 * j))
      with (Datatypes.S (Datatypes.S (2 * Z.to_nat j + 1))) by lia.
    cbn [nth_error].
    rewrite !nth_error_app1 by lia.
    assert (nth_error (map fst fac) (Z.to_nat j) = Some c) as Hcj
      by (now rewrite nth_error_map, Hpair).
    assert (nth_error (map snd fac) (Z.to_nat j) = Some f) as Hfj
      by (now rewrite nth_error_map, Hpair).
    repeat split; try assumption.
    + unfold list_getitem.
      rewrite axis_index_in_range
        by (rewrite array_int_length, length_map; lia).
      cbn [rbind]. now rewrite (array_int_nth _ _ _ Hcj).
    + unfold list_getitem.
      rewrite axis_index_in_range
        by (rewrite array_int_length, length_map; lia).
      cbn [rbind]. now rewrite (array_int_nth _ _ _ Hfj).
  - intros i Hi.
    destruct (nth_error dtoks (Z.to_nat i)) as [w|] eqn:Hw;
      [|apply nth_error_None in Hw; lia].
    destruct (Forall2_nth_error_l _ _ _ Hdall _ _ Hw) as (x & Hx & Hparse).
    exists w, x.
    replace (Z.to_nat (2 + 2 * Z.max m 0 + i))
      with (Datatypes.S (Datatypes.S (length ftoks + Z.to_nat i))) by lia.
    cbn [nth_error].
    rewrite nth_error_app2 by lia.
    replace (length ftoks + Z.to_nat i - length ftoks)%nat
      with (Z.to_nat i) by lia.
    rewrite nth_error_app1 by lia.
    repeat split; try assumption.
    unfold list_getitem.
    rewrite axis_index_in_range
      by (rewrite <- (Forall2_length_eq _ _ _ Hdall); lia).
    cbn [rbind]. now rewrite Hx.
Qed.

(** ** What a returned instance never holds *)

Lemma positive_or_zero_nonnegative (x : float) :
  positive_or_zero x = true -> nonnegative x /\ isnan x = false.
Proof. destruct x as [[|]|[|]| |[|] m e]; try discriminate; now split. Qed.

Lemma some_scale_refused_positive_factor (m : positive) (e : Z) demands :
  some_scale_refused (S754_finite false m e) demands
  = existsb negative_signed demands.
Proof.
  unfold some_scale_refused. induction demands as [|mu ds IH]; [reflexivity|].
  cbn [existsb]. rewrite IH. f_equal.
  unfold scale_refused, negative_signed.
  rewrite fmul_finite_isnan.
  destruct (isnan mu) eqn:Hnan; [reflexivity|]. cbn [negb andb].
  rewrite fmul_signbit by (now rewrite fmul_finite_isnan). reflexivity.
Qed.

(** X9.  In a returned instance no scenario demand is negative or NaN,
    and the same holds of [max_demand_sum_over_scenario]; and there is at
    least one scenario. *)
Theorem read_dataset_scenarios_nonnegative text k vf (g : G) d g' :
  read_dataset text k vf g = inr (d, g') ->
  Forall nonnegative (flat (Data.scenarios d))
  /\ nonnegative (Data.max_demand_sum_over_scenario d)
  /\ isnan (Data.max_demand_sum_over_scenario d) = false
  /\ Data.S d <> [].
Proof.
  intros Hrun.
  apply read_dataset_inv in Hrun
    as (m & n & fac & dem & ship & ws' & scen & mx & Hwords & Hgen & Hmx & ->).
  destruct (read_dataset_scenarios _ _ _ _ _ _ _ _ Hgen Hmx)
    as (Hk & _ & Hshape & Hflat & Hcl).
  apply read_words_inv in Hwords
    as (_ & _ & _ & dtoks & _ & _ & _ & _ & _ & _ & _ & _
        & Hdlen & Hdall & _).
  assert (length dem = Z.to_nat n) as Hdem.
  { rewrite <- (Forall2_length_eq _ _ _ Hdall). exact Hdlen. }
  cbn [Data.scenarios Data.max_demand_sum_over_scenario Data.S].
  assert (max (map sum (rows scen)) = inr mx) as Hmax.
  { rewrite <- Hmx. unfold arange.
    rewrite <- (range_to_nat n), <- (range_to_nat k), <- Hdem.
    symmetry. now apply (max_demand_sum_rows scen _ _ Hshape Hflat). }
  destruct (max_spec _ _ Hmax) as [Hin _].
  apply in_map_iff in Hin as (row & <- & Hrow).
  assert (positive_or_zero (sum row) = true) as Hpz.
  { apply sum_positive_or_zero. apply List.Forall_forall. intros x Hx.
    apply clamped_positive_or_zero.
    destruct (rows_In scen _ _ row Hshape Hflat Hrow) as [_ Hsub].
    rewrite List.Forall_forall in Hcl. apply Hcl. now apply Hsub. }
  apply positive_or_zero_nonnegative in Hpz as [Hnn Hnan].
  repeat split; try assumption.
  - eapply List.Forall_impl; [|exact Hcl]. apply clamped_nonnegative.
  - unfold arange, range, range_len.
    destruct (Z.to_nat k) eqn:Hn; [lia|]. discriminate.
Qed.

(** X10.  Negative capacities pass, negative demands do not: with a
    positive finite [variance_factor] (the default is one), no demand of
    a returned instance is a number with its sign bit set, since its
    scale would have been refused at the first scenario.  A file with a
    demand below zero, or of -0.0, is therefore never accepted. *)
Theorem read_dataset_demands_not_negative text k (m : positive) (e : Z)
    (g : G) d g' :
  read_dataset text k (S754_finite false m e) g = inr (d, g') ->
  Forall (fun mu => negative_signed mu = false) (Data.demands d).
Proof.
  intros Hrun.
  apply read_dataset_inv in Hrun
    as (nf & nc & fac & dem & ship & ws' & scen & mx & _ & Hgen & Hmx & ->).
  destruct (read_dataset_scenarios _ _ _ _ _ _ _ _ Hgen Hmx) as (_ & Hok & _).
  cbn [Data.demands].
  rewrite some_scale_refused_positive_factor in Hok.
  apply List.Forall_forall. intros mu Hin.
  destruct (negative_signed mu) eqn:Hneg; [|reflexivity].
  assert (existsb negative_signed dem = true) as Hex
    by (apply existsb_exists; eauto).
  congruence.
Qed.

End ReaderMore.

(* ===================================================================== *)
(** * Further properties of [generate_scenarios]                         *)
(* ===================================================================== *)

Section SamplingMore.
Context {G : Type} `{RandomState G}.

(** X11.  Whether [generate_scenarios] raises is decided before anything
    is drawn and does not depend on the generator: it raises exactly when
    at least one scenario is asked for and some scale
    [variance_factor * demand] is a number with its sign bit set, and
    what it raises is [ValueError]. *)
Theorem generate_scenarios_raises demands k vf (g : G) :
  ((exists e, generate_scenarios demands k vf g = inl e)
   <-> (1 <= k /\ some_scale_refused vf demands = true))
  /\ (forall e, generate_scenarios demands k vf g = inl e -> e = ValueError).
Proof.
  destruct (Z_lt_le_dec k 1) as [Hk|Hk].
  - rewrite generate_scenarios_none by lia. split.
    + split; [intros [e He]; discriminate | intros [Hk1 _]; lia].
    + intros e He. discriminate.
  - destruct (some_scale_refused vf demands) eqn:Hbad.
    + rewrite generate_scenarios_refused by assumption. split.
      * split; [intros _; now split | intros _; now exists ValueError].
      * now intros e [= <-].
    + destruct (generate_scenarios_drawn demands k vf g Hk Hbad)
        as (a & g' & -> & _). split.
      * split; [intros [e He]; discriminate | intros [_ Hf]; discriminate].
      * intros e He. discriminate.
Qed.

End SamplingMore.

(** ** With the sampler of numpy: which variate goes where *)

Lemma sample_row_gauss_state (vf : float) (demands : list float) :
  forall g : gauss_stream,
    snd (sample_row vf demands g)
    = mk_gauss_stream (variates g) (cursor g + length demands).
Proof.
  induction demands as [|mu ds IH]; intros g; cbn [sample_row].
  - destruct g as [v c]. cbn. now rewrite Nat.add_0_r.
  - cbn [draw_normal gauss_stream_random].
    specialize (IH (mk_gauss_stream (variates g) (Datatypes.S (cursor g)))).
    destruct (sample_row vf ds _) as [xs g'].
    cbn [snd length variates cursor] in *. rewrite IH. f_equal. lia.
Qed.

Lemma sample_row_gauss_nth (vf : float) (demands : list float) :
  forall (g : gauss_stream) (i : nat),
    nth_error (fst (sample_row vf demands g)) i
    = option_map
        (fun mu => fadd mu (fmul (fmul vf mu) (variates g (cursor g + i))))
        (nth_error demands i).
Proof.
  induction demands as [|mu ds IH]; intros g i; cbn [sample_row].
  - now destruct i.
  - cbn [draw_normal gauss_stream_random].
    specialize (IH (mk_gauss_stream (variates g) (Datatypes.S (cursor g)))).
    destruct (sample_row vf ds _) as [xs g'].
    cbn [fst] in *. destruct i as [|i]; cbn [nth_error option_map].
    + now rewrite Nat.add_0_r.
    + rewrite IH. cbn [variates cursor]. now rewrite Nat.add_succ_r.
Qed.

Lemma sample_rows_gauss_state (vf : float) (demands : list float) (n : nat) :
  forall g : gauss_stream,
    snd (sample_rows vf demands n g)
    = mk_gauss_stream (variates g) (cursor g + n * length demands).
Proof.
  induction n as [|n IH]; intros g; cbn [sample_rows].
  - destruct g as [v c]. cbn. now rewrite Nat.add_0_r.
  - pose proof (sample_row_gauss_state vf demands g) as Hrow.
    destruct (sample_row vf demands g) as [row g1]. cbn [snd] in Hrow. subst g1.
    specialize (IH (mk_gauss_stream (variates g) (cursor g + length demands))).
    destruct (sample_rows vf demands n _) as [rows g'].
    cbn [snd variates cursor] in *. rewrite IH. f_equal. lia.
Qed.

Lemma sample_rows_gauss_nth (vf : float) (demands : list float) (n : nat) :
  forall (g : gauss_stream) (s : nat),
    (s < n)%nat ->
    nth_error (fst (sample_rows vf demands n g)) s
    = Some (fst (sample_row vf demands
                   (mk_gauss_stream (variates g)
                      (cursor g + s * length demands)))).
Proof.
  induction n as [|n IH]; intros g s Hs; [lia|]. cbn [sample_rows].
  pose proof (sample_row_gauss_state vf demands g) as Hrow.
  destruct (sample_row vf demands g) as [row g1] eqn:Hr. cbn [snd] in Hrow. subst g1.
  specialize (IH (mk_gauss_stream (variates g) (cursor g + length demands))).
  destruct (sample_rows vf demands n _) as [rows g'].
  cbn [fst] in *. destruct s as [|s]; cbn [nth_error].
  - cbn [Nat.mul]. rewrite Nat.add_0_r. destruct g as [v c]. cbn [variates cursor].
    now rewrite Hr.
  - rewrite IH by lia. cbn [variates cursor]. do 4 f_equal. lia.
Qed.

Lemma concat_blocks_nth {A} (c : nat) (rows : list (list A)) :
  Forall (fun row => length row = c) rows ->
  forall s i row, nth_error rows s = Some row -> (i < c)%nat ->
    nth_error (concat rows) (s * c + i) = nth_error row i.
Proof.
  induction 1 as [|r rs Hr Hall IH]; intros s i row Hs Hi.
  - now destruct s.
  - cbn [concat]. destruct s as [|s]; cbn [nth_error] in Hs.
    + injection Hs as <-. cbn [Nat.mul Nat.add].
      now rewrite nth_error_app1 by lia.
    + rewrite nth_error_app2 by (cbn; lia).
      replace (Datatypes.S s * c + i - length r)%nat with (s * c + i)%nat
        by (cbn; lia).
      now apply IH.
Qed.

(** The entry of scenario [s] and customer [i], from the variates. *)
Lemma gauss_entry demands k vf (g : gauss_stream) a g' :
  generate_scenarios demands k vf g = inr (a, g') ->
  forall s i mu,
    0 <= s < k -> nth_error demands i = Some mu ->
    getitem2 a s (Z.of_nat i)
    = inr (max0 (fadd mu
                   (fmul (fmul vf mu)
                      (variates g
                         (cursor g + (Z.to_nat s * length demands + i)))))).
Proof.
  intros Hrun s i mu Hs Hmu.
  assert (1 <= k) as Hk by lia.
  destruct (some_scale_refused vf demands) eqn:Hbad.
  { rewrite generate_scenarios_refused in Hrun by assumption. discriminate. }
  destruct (generate_scenarios_drawn demands k vf g Hk Hbad)
    as (a0 & g0 & Hrun0 & Hshape & Hlen & _).
  rewrite Hrun in Hrun0. injection Hrun0 as <- <-.
  pose proof (nth_error_bound _ _ _ Hmu) as Hi.
  rewrite (getitem2_in_range a (Z.to_nat k) (length demands))
    by (assumption || lia).
  rewrite Nat2Z.id.
  (* the entries are the clamped draws *)
  pose proof (rows_drawn_eq vf demands (Z.to_nat k) g Hbad) as Hrows.
  unfold generate_scenarios, range_len in Hrun. unfold bind at 1 in Hrun.
  rewrite Hrows in Hrun. unfold lift in Hrun.
  destruct (array (map (map max0) (fst (sample_rows vf demands (Z.to_nat k) g))))
    as [e|a1] eqn:Harr; [discriminate|].
  injection Hrun as -> _.
  assert (flat a
          = concat (map (map max0) (fst (sample_rows vf demands (Z.to_nat k) g))))
    as Hflat.
  { unfold array in Harr.
    destruct (map (map max0) (fst (sample_rows vf demands (Z.to_nat k) g)))
      as [|r rs]; [now injection Harr as <-|].
    destruct (forallb _ rs); [|discriminate]. now injection Harr as <-. }
  rewrite Hflat.
  pose proof (sample_rows_gauss_nth vf demands (Z.to_nat k) g (Z.to_nat s)
                ltac:(lia)) as Hrow.
  assert (Forall (fun row => length row = length demands)
            (map (map max0) (fst (sample_rows vf demands (Z.to_nat k) g))))
    as Hall.
  { apply List.Forall_forall. intros row Hin.
    apply in_map_iff in Hin as (row0 & <- & Hin0). rewrite length_map.
    apply In_nth_error in Hin0 as [s0 Hs0].
    pose proof (nth_error_bound _ _ _ Hs0) as Hb.
    assert (s0 < Z.to_nat k)%nat as Hs0k.
    { destruct (rows_drawn vf demands (Z.to_nat k) g Hbad)
        as (rows & g1 & Hr1 & Hn1 & _).
      rewrite Hrows in Hr1. injection Hr1 as Hr1 _.
      rewrite <- Hn1, <- Hr1, length_map. exact Hb. }
    rewrite (sample_rows_gauss_nth vf demands _ g s0 Hs0k) in Hs0.
    injection Hs0 as <-. apply sample_row_length. }
  rewrite (concat_blocks_nth (length demands) _ Hall (Z.to_nat s) i
             (map max0 (fst (sample_row vf demands
                (mk_gauss_stream (variates g)
                   (cursor g + Z.to_nat s * length demands))))));
    [|now rewrite nth_error_map, Hrow|exact Hi].
  rewrite nth_error_map, sample_row_gauss_nth, Hmu. cbn [option_map variates cursor].
  now rewrite Nat.add_assoc.
Qed.

(** X12.  The draws are made row after row: with the generator of numpy,
    the entry of scenario [s] and customer [i] is the maximum of 0 and
    [mu + (variance_factor * mu) * z], where [mu] is the nominal demand
    of [i] and [z] the variate number [s * len(demands) + i] after the
    current one. *)
Theorem generate_scenarios_entry demands k vf (g : gauss_stream) a g' :
  generate_scenarios demands k vf g = inr (a, g') ->
  forall s i mu,
    0 <= s < k -> nth_error demands i = Some mu ->
    getitem2 a s (Z.of_nat i)
    = inr (max0 (fadd mu
                   (fmul (fmul vf mu)
                      (variates g
                         (cursor g + (Z.to_nat s * length demands + i)))))).
Proof. apply gauss_entry. Qed.

(** The variates a call consumes. *)
Lemma gauss_draw_count demands k vf (g : gauss_stream) a g' :
  generate_scenarios demands k vf g = inr (a, g') ->
  variates g' = variates g
  /\ cursor g' = (cursor g + Z.to_nat k * length demands)%nat.
Proof.
  intros Hrun.
  destruct (Z_lt_le_dec k 1) as [Hk|Hk].
  - rewrite generate_scenarios_none in Hrun by lia. injection Hrun as _ <-.
    replace (Z.to_nat k) with 0%nat by lia. split; [reflexivity|lia].
  - destruct (some_scale_refused vf demands) eqn:Hbad.
    { rewrite generate_scenarios_refused in Hrun by assumption. discriminate. }
    pose proof (rows_drawn_eq vf demands (Z.to_nat k) g Hbad) as Hrows.
    unfold generate_scenarios, range_len in Hrun. unfold bind at 1 in Hrun.
    rewrite Hrows in Hrun. unfold lift in Hrun.
    destruct (array _) as [e|a1]; [discriminate|].
    injection Hrun as _ <-. rewrite sample_rows_gauss_state. split; reflexivity.
Qed.

(** X13.  With the generator of numpy, a call that returns has consumed
    exactly [num_scenarios * len(demands)] variates (none when
    [num_scenarios <= 0]) and left the stream itself as it was. *)
Theorem generate_scenarios_draw_count demands k vf (g : gauss_stream) a g' :
  generate_scenarios demands k vf g = inr (a, g') ->
  variates g' = variates g
  /\ cursor g' = (cursor g + Z.to_nat k * length demands)%nat.
Proof. apply gauss_draw_count. Qed.

(** X14.  With the generator of numpy, a customer whose nominal demand
    is 0 has demand 0 in every scenario, whatever the variates (be they
    infinite or NaN) and the variance factor. *)
Theorem generate_scenarios_zero_demand demands k vf (g : gauss_stream) a g' :
  generate_scenarios demands k vf g = inr (a, g') ->
  forall s i,
    0 <= s < k -> nth_error demands i = Some fzero ->
    getitem2 a s (Z.of_nat i) = inr fzero.
Proof.
  intros Hrun s i Hs Hmu.
  assert (scale_refused (fmul vf fzero) = false) as Hscale.
  { destruct (some_scale_refused vf demands) eqn:Hbad.
    - rewrite generate_scenarios_refused in Hrun by (assumption || lia).
      discriminate.
    - unfold some_scale_refused in Hbad.
      destruct (scale_refused (fmul vf fzero)) eqn:Hc; [|reflexivity].
      assert (existsb (fun mu => scale_refused (fmul vf mu)) demands = true)
        as Hex.
      { apply existsb_exists. exists fzero. split; [|exact Hc].
        eapply nth_error_In. exact Hmu. }
      congruence. }
  rewrite (gauss_entry demands k vf g a g' Hrun s i fzero Hs Hmu).
  f_equal.
  set (z := variates g _). clearbody z. revert Hscale.
  unfold scale_refused, max0, fadd, fmul, fzero, flt, SFltb.
  destruct vf as [[|]|[|]| |[|] mv ev], z as [[|]|[|]| |[|] mz ez];
    cbn; try discriminate; reflexivity.
Qed.

(** X15.  With the generator of numpy, a successful [read_dataset] has
    consumed exactly one variate per scenario and customer, [|S| * |I|]
    in all, whatever the number of facilities, and left the stream itself
    as it was. *)
Theorem read_dataset_draw_count text k vf (g : gauss_stream) d g' :
  read_dataset text k vf g = inr (d, g') ->
  variates g' = variates g
  /\ cursor g' = (cursor g + length (Data.S d) * length (Data.I d))%nat.
Proof.
  intros Hrun.
  apply read_dataset_inv in Hrun
    as (m & n & fac & dem & ship & ws' & scen & mx & Hwords & Hgen & _ & ->).
  apply read_words_inv in Hwords
    as (_ & _ & _ & dtoks & _ & _ & _ & _ & _ & _ & _ & _
        & Hdlen & Hdall & _).
  cbn [Data.S Data.I]. unfold arange. rewrite !range_length.
  replace (Z.to_nat n) with (length dem)
    by (rewrite <- (Forall2_length_eq _ _ _ Hdall); exact Hdlen).
  now apply (gauss_draw_count dem k vf g scen g').
Qed.

(* ===================================================================== *)
(** * Further properties of the script                                   *)
(* ===================================================================== *)

(** A lookup in a list succeeds exactly on its indices, counted from
    either end. *)
Lemma list_getitem_indexed {A} (xs : list A) (j : Z) :
  (exists x, list_getitem xs j = inr x)
  <-> - Z.of_nat (length xs) <= j < Z.of_nat (length xs).
Proof.
  unfold list_getitem, axis_index.
  destruct ((0 <=? j) && (j <? Z.of_nat (length xs)))%bool eqn:Hfront;
    cbn [rbind].
  - apply andb_true_iff in Hfront as [H1 H2].
    apply Z.leb_le in H1. apply Z.ltb_lt in H2.
    split; [lia|]. intros _.
    destruct (nth_error xs (Z.to_nat j)) as [x|] eqn:Hx; [eauto|].
    apply nth_error_None in Hx. lia.
  - destruct ((- Z.of_nat (length xs) <=? j) && (j <? 0))%bool eqn:Hback;
      cbn [rbind].
    + apply andb_true_iff in Hback as [H1 H2].
      apply Z.leb_le in H1. apply Z.ltb_lt in H2.
      split; [lia|]. intros _.
      destruct (nth_error xs (Z.to_nat (j + Z.of_nat (length xs))))
        as [x|] eqn:Hx; [eauto|].
      apply nth_error_None in Hx. lia.
    + split; [intros [x Hx]; discriminate|]. intros Hj.
      apply andb_false_iff in Hfront, Hback.
      rewrite Z.leb_gt, Z.ltb_ge in Hfront, Hback. lia.
Qed.

(** The facilities printed as open. *)
Lemma open_facilities_filter (locations : list float) (J : list Z) :
  indexes locations J ->
  open_facilities locations J = inr (List.filter (is_open locations) J).
Proof.
  induction J as [|j J IH]; intros Hin; [reflexivity|].
  cbn [open_facilities List.filter].
  destruct (proj2 (list_getitem_indexed locations j)) as (x & Hx);
    [apply Hin; now left|].
  unfold is_open at 1. rewrite Hx. cbn [rbind].
  rewrite IH by (intros j' Hj'; apply Hin; now right). reflexivity.
Qed.

Lemma open_facilities_indexes (locations : list float) (J opened : list Z) :
  open_facilities locations J = inr opened -> indexes locations J.
Proof.
  revert opened. induction J as [|j J IH]; intros opened Hopen j' Hj';
    [destruct Hj'|].
  cbn [open_facilities] in Hopen.
  destruct (list_getitem locations j) as [e|x] eqn:Hj; [discriminate|].
  cbn [rbind] in Hopen.
  destruct (open_facilities locations J) as [e|rest] eqn:Hrest; [discriminate|].
  destruct Hj' as [<-|Hj'].
  - apply list_getitem_indexed. eauto.
  - exact (IH rest eq_refl j' Hj').
Qed.

(** The totals printed. *)
Lemma total_cuts_covered (counters : gmap Z Z) (S : list Z) :
  covers counters S ->
  total_cuts counters S = inr (fold_left Z.add (map (counter counters) S) 0).
Proof.
  intros Hcov. unfold total_cuts.
  assert (mapR (dict_getitem counters) S = inr (map (counter counters) S)) as ->;
    [|reflexivity].
  induction S as [|s S IH]; [reflexivity|]. cbn [mapR map].
  destruct (Hcov s (or_introl eq_refl)) as [n Hn].
  unfold dict_getitem at 1, counter at 1. rewrite Hn. cbn [rbind].
  rewrite IH by (intros s' Hs'; apply Hcov; now right). reflexivity.
Qed.

Lemma total_cuts_missing (counters : gmap Z Z) (S : list Z) :
  (exists s, In s S /\ counters !! s = None) ->
  total_cuts counters S = inl KeyError.
Proof.
  intros Hmiss. unfold total_cuts.
  assert (mapR (dict_getitem counters) S = inl KeyError) as ->; [|reflexivity].
  induction S as [|s S IH]; [destruct Hmiss as (s & [] & _)|].
  cbn [mapR]. unfold dict_getitem at 1.
  destruct (counters !! s) as [n|] eqn:Hs; [|reflexivity].
  cbn [rbind]. rewrite IH; [reflexivity|].
  destruct Hmiss as (s0 & [->|Hin] & Hnone); [congruence | eauto].
Qed.

Section ScriptMore.
Context {G : Type} `{RandomState G}.

(** The facilities of a returned instance are 0, ..., |J| - 1: they are
    indices into a list exactly when the list is at least as long. *)
Lemma read_dataset_facilities text k vf (g : G) d g' :
  read_dataset text k vf g = inr (d, g') ->
  forall j, In j (Data.J d) <-> 0 <= j < Z.of_nat (length (Data.J d)).
Proof.
  intros Hrun j.
  apply read_dataset_inv in Hrun
    as (m & n & fac & dem & ship & ws' & scen & mx & _ & _ & _ & ->).
  cbn [Data.J]. unfold arange. rewrite range_In, range_length. lia.
Qed.

Lemma read_dataset_indexes {A} text k vf (g : G) d g' (xs : list A) :
  read_dataset text k vf g = inr (d, g') ->
  indexes xs (Data.J d) <-> (length (Data.J d) <= length xs)%nat.
Proof.
  intros Hrun. split.
  - intros Hin.
    destruct (Nat.le_gt_cases (length (Data.J d)) (length xs)) as [Hle|Hlt];
      [exact Hle|].
    assert (In (Z.of_nat (length xs)) (Data.J d)) as Hlast
      by (apply (read_dataset_facilities _ _ _ _ _ _ Hrun); lia).
    apply Hin in Hlast. lia.
  - intros Hle j Hj.
    apply (read_dataset_facilities _ _ _ _ _ _ Hrun) in Hj. lia.
Qed.

(** X16.  The script completes whenever the file is read and the solver
    returns a solution with a location for every facility and, in both
    dictionaries, a counter for every scenario of the instance as the
    call left it.  It then prints the facilities whose location exceeds
    0.5, in the order of [data.J], and the sums of the counters over the
    scenarios of the instance; entries the solution holds beyond these
    play no part. *)
Theorem main_completes solve text (g : G) d g1 sol d' g' :
  read_dataset text default_num_scenarios default_variance_factor g
  = inr (d, g1) ->
  solve d g1 = inr ((sol, d'), g') ->
  indexes (locations sol) (Data.J d') ->
  covers (num_cuts_mip sol) (Data.S d') ->
  covers (num_cuts_rel sol) (Data.S d') ->
  main solve text g
  = inr (mk_run d' sol
           (mk_report (objective_value sol)
              (List.filter (is_open (locations sol)) (Data.J d'))
              (solution_time sol)
              (fold_left Z.add (map (counter (num_cuts_mip sol)) (Data.S d')) 0)
              (fold_left Z.add (map (counter (num_cuts_rel sol)) (Data.S d')) 0)
              (num_bnb_nodes sol)),
         g').
Proof.
  intros Hread Hsolve Hloc Hmip Hrel.
  unfold main, bind. rewrite Hread, Hsolve. unfold lift.
  rewrite (open_facilities_filter _ _ Hloc).
  rewrite (total_cuts_covered _ _ Hmip), (total_cuts_covered _ _ Hrel).
  reflexivity.
Qed.

(** X17.  The script never prints totals that skip a scenario or a list
    that skips a facility: if it completes, the solution held a location
    for every facility of the instance and, in both dictionaries, a
    counter for every scenario.  A solution that lacks one of them makes
    the lookup, and with it the script, raise.  When the solver has left
    the facility list as it was read, having a location for every
    facility is having at least as many locations as facilities. *)
Theorem main_completes_only_if solve text (g : G) r g' :
  main solve text g = inr (r, g') ->
  indexes (locations (run_solution r)) (Data.J (run_data r))
  /\ covers (num_cuts_mip (run_solution r)) (Data.S (run_data r))
  /\ covers (num_cuts_rel (run_solution r)) (Data.S (run_data r))
  /\ (read_only solve ->
      (length (Data.J (run_data r))
       <= length (locations (run_solution r)))%nat).
Proof.
  intros Hrun.
  apply main_inv in Hrun
    as (d & g1 & opened & cuts & cuts_rel & Hread & Hsolve & Hopen & Hmip
        & Hrel & _).
  assert (indexes (locations (run_solution r)) (Data.J (run_data r))) as Hloc
    by exact (open_facilities_indexes _ _ _ Hopen).
  split; [exact Hloc|]. split; [|split].
  - intros s Hs.
    destruct (num_cuts_mip (run_solution r) !! s) as [n|] eqn:Hn; [eauto|].
    rewrite total_cuts_missing in Hmip by eauto. discriminate.
  - intros s Hs.
    destruct (num_cuts_rel (run_solution r) !! s) as [n|] eqn:Hn; [eauto|].
    rewrite total_cuts_missing in Hrel by eauto. discriminate.
  - intros Hro. rewrite (Hro _ _ _ _ _ Hsolve) in *.
    now apply (read_dataset_indexes _ _ _ _ _ _ _ Hread).
Qed.

End ScriptMore.

(* ===================================================================== *)
(** * The cost block and the empty instance                              *)
(* ===================================================================== *)

(** Transposing twice gives the array back. *)
Lemma transpose_involutive {A} (xs : list A) (r c : nat) :
  length xs = (r * c)%nat ->
  transpose (transpose (mk_ndarray [r; c] xs)) = mk_ndarray [r; c] xs.
Proof.
  intros Hlen.
  pose proof (transpose_length xs r c Hlen) as HlenT.
  set (t := transpose (mk_ndarray [r; c] xs)) in *.
  assert (t = mk_ndarray [c; r] (flat t)) as Ht by reflexivity.
  rewrite Ht.
  assert (length (flat (transpose (mk_ndarray [c; r] (flat t)))) = (r * c)%nat)
    as HlenTT by (now apply transpose_length).
  change (transpose (mk_ndarray [c; r] (flat t)))
    with (mk_ndarray [r; c] (flat (transpose (mk_ndarray [c; r] (flat t))))).
  f_equal. apply nth_error_ext. intros p.
  destruct (Nat.lt_ge_cases p (r * c)) as [Hp|Hp].
  - assert (c <> 0)%nat as Hc by nia.
    pose proof (Nat.div_mod_eq p c) as Hdiv.
    pose proof (Nat.mod_upper_bound p c Hc) as Hmod.
    assert (p / c < r)%nat as Hquot
      by (apply Nat.Div0.div_lt_upper_bound; lia).
    replace p with ((p / c) * c + p mod c)%nat at 1 2 by lia.
    rewrite (transpose_nth (flat t) c r (p mod c) (p / c)) by assumption.
    unfold t. now rewrite (transpose_nth xs r c (p / c) (p mod c)) by assumption.
  - transitivity (@None A); [|symmetry]; apply nth_error_None; lia.
Qed.

Lemma Forall2_mapR {A B} (f : A -> result B) (xs : list A) (ys : list B) :
  Forall2 (fun x y => f x = inr y) xs ys -> mapR f xs = inr ys.
Proof.
  induction 1 as [|x y xs ys Hxy Hall IH]; [reflexivity|].
  cbn [mapR]. rewrite Hxy. cbn [rbind]. now rewrite IH.
Qed.

(** The empty instance. *)
Lemma sample_rows_no_demand {G} `{RandomState G} (vf : float) (n : nat) (g : G) :
  sample_rows vf [] n g = (repeat [] n, g).
Proof.
  induction n as [|n IH]; [reflexivity|]. cbn [sample_rows sample_row].
  now rewrite IH.
Qed.

Lemma chunks_empty {A} (n : nat) : @chunks A 0 n [] = repeat [] n.
Proof. induction n as [|n IH]; [reflexivity|]. cbn. now rewrite IH. Qed.

Lemma max_fold_zeros (n : nat) :
  fold_left (fun m y => if flt m y then y else m) (repeat fzero n) fzero = fzero.
Proof. induction n as [|n IH]; [reflexivity|]. exact IH. Qed.

Section Edges.
Context {G : Type} `{RandomState G}.

(** X18.  Transposing the stored cost matrix back gives the cost block
    of the file, word for word: the floats of the words that follow the
    header, the facility block and the demand block, in file order, are
    the entries of [np.transpose(shipment_costs)], a matrix with one row
    per facility. *)
Theorem shipment_costs_round_trip text k vf (g : G) d g' :
  read_dataset text k vf g = inr (d, g') ->
  exists m n,
    header (word_reader text) = Some (m, n)
    /\ shape (transpose (Data.shipment_costs d))
       = [length (Data.J d); length (Data.I d)]
    /\ mapR float_of_str
         (firstn (range_len (m * n))
            (skipn (2 + 2 * range_len m + range_len n) (word_reader text)))
       = inr (flat (transpose (Data.shipment_costs d))).
Proof.
  intros Hrun.
  apply read_dataset_inv in Hrun
    as (m & n & fac & dem & ship & ws' & scen & mx & Hwords & _ & _ & ->).
  apply read_words_inv in Hwords
    as (t0 & t1 & ftoks & dtoks & ctoks & costs & Hws & Ht0 & Ht1 & Hflen & _ & _
        & Hdlen & _ & Hctoks & Hcall & Hclen & ->).
  exists m, n. rewrite Hws. unfold header. rewrite Ht0, Ht1.
  cbn [Data.shipment_costs Data.I Data.J]. unfold arange. rewrite !range_length.
  rewrite transpose_involutive by assumption. cbn [shape flat].
  split; [reflexivity|]. split; [reflexivity|].
  replace (2 + 2 * range_len m + range_len n)%nat
    with (Datatypes.S (Datatypes.S (length ftoks + length dtoks))) by lia.
  cbn [skipn].
  rewrite app_assoc, skipn_app, length_app.
  rewrite skipn_all2 by (rewrite length_app; lia).
  replace (length ftoks + length dtoks - (length ftoks + length dtoks))%nat
    with 0%nat by lia.
  cbn [app]. rewrite skipn_O, <- Hctoks, firstn_app, firstn_all, Nat.sub_diag.
  cbn [firstn]. rewrite app_nil_r. now apply Forall2_mapR.
Qed.

(** X19.  A file whose header declares no facility and no customer gives,
    for any [num_scenarios >= 1], the empty instance: no index but the
    scenarios', empty arrays (those of capacities and fixed costs are
    float arrays, as [np.array] makes of an empty list; the scenario
    array has [num_scenarios] rows and no column), a maximal total
    demand of 0 (each total is the
    empty sum, Python's integer 0, held here as the float 0.0); nothing
    is drawn, and whatever follows the header is ignored. *)
Theorem read_dataset_empty_instance text k vf (g : G) :
  header (word_reader text) = Some (0, 0) -> 1 <= k ->
  read_dataset text k vf g
  = inr (Data.mk [] [] (arange k) [] (mk_ndarray [Z.to_nat k; 0%nat] [])
           (mk_int_array float64 []) (mk_int_array float64 [])
           (mk_ndarray [0%nat; 0%nat] []) fzero,
         g).
Proof.
  intros Hhead Hk. unfold header in Hhead.
  destruct (word_reader text) as [|t0 [|t1 rest]] eqn:Hws; try discriminate.
  destruct (int t0) as [e0|m] eqn:Ht0; [discriminate|].
  destruct (int t1) as [e1|n] eqn:Ht1; [discriminate|].
  injection Hhead as -> ->.
  assert (read_words (word_reader text)
          = inr ((0, 0, [], [], mk_ndarray [0%nat; 0%nat] []), rest)) as Hwords.
  { rewrite Hws. unfold read_words, bind, next, lift. rewrite Ht0, Ht1.
    reflexivity. }
  destruct (read_dataset_after_words text k vf g _ _ _ _ _ _ Hwords)
    as [(_ & _ & scen & g' & mx & Hgen & Hmx & ->)|[[Hk0|Hbad] _]];
    [|lia|discriminate].
  (* nothing is drawn *)
  pose proof (rows_drawn_eq vf [] (Z.to_nat k) g eq_refl) as Hrows.
  rewrite sample_rows_no_demand in Hrows. cbn [fst snd] in Hrows.
  unfold generate_scenarios, range_len in Hgen. unfold bind at 1 in Hgen.
  rewrite Hrows in Hgen.
  assert (array (map (map max0) (repeat [] (Z.to_nat k)))
          = inr (mk_ndarray [Z.to_nat k; 0%nat] [])) as Harr.
  { destruct (Z.to_nat k) as [|p] eqn:Hp; [lia|].
    cbn [repeat map array length].
    assert (forallb (fun r' : list float => Nat.eqb (length r') 0)
              (map (map max0) (repeat [] p)) = true) as ->.
    { apply forallb_forall. intros r Hr.
      apply in_map_iff in Hr as (r0 & <- & Hr0).
      apply repeat_spec in Hr0. now subst r0. }
    rewrite length_map, repeat_length. do 2 f_equal.
    clear. induction p as [|p IH]; [reflexivity|]. exact IH. }
  unfold lift in Hgen. rewrite Harr in Hgen. injection Hgen as <- <-.
  (* and the maximum is over rows without entries *)
  change (arange 0) with (arange (Z.of_nat 0)) in Hmx.
  unfold arange at 2 in Hmx. rewrite <- (range_to_nat k) in Hmx.
  change (range (Z.of_nat (Z.to_nat k)))
    with (arange (Z.of_nat (Z.to_nat k))) in Hmx.
  rewrite (max_demand_sum_rows (mk_ndarray [Z.to_nat k; 0%nat] [])
             (Z.to_nat k) 0 eq_refl) in Hmx by (cbn; lia).
  unfold rows in Hmx. cbn [shape flat] in Hmx. rewrite chunks_empty in Hmx.
  destruct (Z.to_nat k) as [|p] eqn:Hp; [lia|].
  cbn [repeat map max] in Hmx. rewrite map_repeat in Hmx.
  change (sum []) with fzero in Hmx. rewrite max_fold_zeros in Hmx.
  injection Hmx as <-. reflexivity.
Qed.

End Edges.

(* ===================================================================== *)
(** * The further properties on concrete files                           *)
(* ===================================================================== *)

(** X1 on the example file. *)
Lemma word_reader_yields_words_witness :
  In "2.5"%string (word_reader example_text) /\ is_word "2.5" = true.
Proof.
  assert (In "2.5"%string (word_reader example_text)) as Hin
    by (vm_compute; tauto).
  split; [exact Hin|].
  exact (word_reader_yields_words example_text "2.5" Hin).
Defined.

(** X2 on three words, one to a line. *)
Lemma word_reader_join_witness :
  blank (String LF EmptyString) = true
  /\ String LF EmptyString <> EmptyString
  /\ Forall (fun w => is_word w = true) ["1"; "2.5"; "-3e4"]%string
  /\ word_reader (join (String LF EmptyString) ["1"; "2.5"; "-3e4"]%string)
     = ["1"; "2.5"; "-3e4"]%string.
Proof.
  assert (blank (String LF EmptyString) = true) as Hb by reflexivity.
  assert (String LF EmptyString <> EmptyString) as Hne by discriminate.
  assert (Forall (fun w => is_word w = true) ["1"; "2.5"; "-3e4"]%string)
    as Hall by (repeat constructor).
  split; [exact Hb|]. split; [exact Hne|]. split; [exact Hall|].
  exact (word_reader_join _ _ Hb Hne Hall).
Defined.

(** X3 on two halves of a line. *)
Lemma word_reader_app_witness :
  isspace " " = true
  /\ word_reader ("1 1 5" ++ String " " "10 5 2")
     = word_reader "1 1 5" ++ word_reader "10 5 2".
Proof.
  assert (isspace " " = true) as Hc by reflexivity.
  split; [exact Hc|].
  exact (word_reader_app "1 1 5" "10 5 2" " " Hc).
Defined.

(** X4 on a file of spaces, a tab and a line end. *)
Lemma read_dataset_blank_file_witness :
  blank blank_text = true
  /\ word_reader blank_text = []
  /\ read_dataset blank_text default_num_scenarios default_variance_factor
       example_stream = inl StopIteration.
Proof.
  assert (blank blank_text = true) as Hb by reflexivity.
  split; [exact Hb|].
  exact (read_dataset_blank_file blank_text default_num_scenarios
           default_variance_factor example_stream Hb).
Defined.

(** X5 on the file that is one number short. *)
Lemma read_dataset_raises_witness :
  read_dataset short_text default_num_scenarios default_variance_factor
    example_stream = inl StopIteration
  /\ (StopIteration = StopIteration \/ StopIteration = ValueError).
Proof.
  assert (read_dataset short_text default_num_scenarios default_variance_factor
            example_stream = inl StopIteration) as Hrun
    by (vm_compute; reflexivity).
  split; [exact Hrun|].
  exact (read_dataset_raises _ _ _ _ _ Hrun).
Defined.

(** X6 on the example file and no scenario. *)
Lemma read_dataset_needs_a_scenario_witness :
  0 <= 0
  /\ read_dataset example_text 0 default_variance_factor example_stream
     = inl ValueError.
Proof.
  assert (0 <= 0) as Hk by lia.
  split; [exact Hk|].
  destruct (read_dataset_needs_a_scenario example_text 0
              default_variance_factor example_stream Hk) as [_ Hparsed].
  apply (Hparsed 2 default_variance_factor example_stream example_data
           (mk_gauss_stream (variates example_stream) 6)).
  vm_compute. reflexivity.
Defined.

(** X7 on the single-facility file and the same with two more numbers. *)
Lemma read_dataset_ignores_surplus_witness :
  word_reader surplus_text = word_reader single_text ++ ["99"; "98"]%string
  /\ exists d g',
       read_dataset single_text 2 default_variance_factor example_stream
       = inr (d, g')
       /\ read_dataset surplus_text 2 default_variance_factor example_stream
          = inr (d, g').
Proof.
  assert (word_reader surplus_text
          = word_reader single_text ++ ["99"; "98"]%string) as Hmore
    by (vm_compute; reflexivity).
  split; [exact Hmore|].
  destruct (read_dataset single_text 2 default_variance_factor example_stream)
    as [e|[d g']] eqn:Hrun; [vm_compute in Hrun; discriminate|].
  exists d, g'. split; [reflexivity|].
  rewrite <- Hrun.
  rewrite (read_dataset_ignores_surplus single_text surplus_text _ 2
             default_variance_factor example_stream d g' Hmore Hrun).
  now rewrite Hrun.
Defined.

(** X8 on the example file, whose capacities and fixed costs all fit a
    signed 64-bit integer. *)
Lemma read_dataset_fields_from_words_witness :
  read_dataset example_text 2 default_variance_factor example_stream
  = inr (example_data, mk_gauss_stream (variates example_stream) 6)
  /\ exists m n cs fs,
       header (word_reader example_text) = Some (m, n)
       /\ Data.capacities example_data = array_int cs
       /\ Data.fixed_costs example_data = array_int fs
       /\ (Forall (fun c => fits_int64 c = true) cs ->
           items (Data.capacities example_data) = map int_item cs)
       /\ (forall j, 0 <= j < m ->
             exists w1 w2 c f,
               nth_error (word_reader example_text) (Z.to_nat (2 + 2 * j))
               = Some w1
               /\ nth_error (word_reader example_text) (Z.to_nat (3 + 2 * j))
                  = Some w2
               /\ int w1 = inr c /\ int w2 = inr f
               /\ nth_error cs (Z.to_nat j) = Some c
               /\ nth_error fs (Z.to_nat j) = Some f
               /\ list_getitem (items (Data.capacities example_data)) j
                  = inr (cast (dtype (Data.capacities example_data)) c)
               /\ list_getitem (items (Data.fixed_costs example_data)) j
                  = inr (cast (dtype (Data.fixed_costs example_data)) f)).
Proof.
  assert (read_dataset example_text 2 default_variance_factor example_stream
          = inr (example_data, mk_gauss_stream (variates example_stream) 6))
    as Hrun by (vm_compute; reflexivity).
  split; [exact Hrun|].
  destruct (read_dataset_fields_from_words _ _ _ _ _ _ Hrun)
    as (m & n & cs & fs & Hh & Hcs & Hfs & Hexact & _ & Hfac & _).
  exists m, n, cs, fs. repeat split; assumption.
Defined.

(** X9 on the example file. *)
Lemma read_dataset_scenarios_nonnegative_witness :
  read_dataset example_text 2 default_variance_factor example_stream
  = inr (example_data, mk_gauss_stream (variates example_stream) 6)
  /\ Forall nonnegative (flat (Data.scenarios example_data))
  /\ nonnegative (Data.max_demand_sum_over_scenario example_data).
Proof.
  assert (read_dataset example_text 2 default_variance_factor example_stream
          = inr (example_data, mk_gauss_stream (variates example_stream) 6))
    as Hrun by (vm_compute; reflexivity).
  split; [exact Hrun|].
  destruct (read_dataset_scenarios_nonnegative _ _ _ _ _ _ Hrun)
    as (Hall & Hmax & _).
  split; assumption.
Defined.

(** X10 on the example file, with the default variance factor. *)
Lemma read_dataset_demands_not_negative_witness :
  read_dataset example_text 2 (S754_finite false 7205759403792794 (-55))
    example_stream
  = inr (example_data, mk_gauss_stream (variates example_stream) 6)
  /\ Forall (fun mu => negative_signed mu = false) (Data.demands example_data).
Proof.
  assert (read_dataset example_text 2 (S754_finite false 7205759403792794 (-55))
            example_stream
          = inr (example_data, mk_gauss_stream (variates example_stream) 6))
    as Hrun by (vm_compute; reflexivity).
  split; [exact Hrun|].
  exact (read_dataset_demands_not_negative _ _ _ _ _ _ _ Hrun).
Defined.

(** X12, X13 and X14 on the demands 1 and 0, two scenarios. *)
Lemma generate_scenarios_entry_witness :
  exists a g',
    generate_scenarios [one; fzero] 2 default_variance_factor example_stream
    = inr (a, g')
    /\ getitem2 a 1 (Z.of_nat 0)
       = inr (max0 (fadd one
                      (fmul (fmul default_variance_factor one)
                         (variates example_stream 2)))).
Proof.
  destruct (generate_scenarios [one; fzero] 2 default_variance_factor
              example_stream) as [e|[a g']] eqn:Hrun;
    [vm_compute in Hrun; discriminate|].
  exists a, g'. split; [reflexivity|].
  exact (generate_scenarios_entry _ _ _ _ _ _ Hrun 1 0%nat one
           ltac:(lia) eq_refl).
Defined.

Lemma generate_scenarios_draw_count_witness :
  exists a g',
    generate_scenarios [one; fzero] 2 default_variance_factor example_stream
    = inr (a, g')
    /\ variates g' = variates example_stream
    /\ cursor g' = 4%nat.
Proof.
  destruct (generate_scenarios [one; fzero] 2 default_variance_factor
              example_stream) as [e|[a g']] eqn:Hrun;
    [vm_compute in Hrun; discriminate|].
  exists a, g'. split; [reflexivity|].
  exact (generate_scenarios_draw_count _ _ _ _ _ _ Hrun).
Defined.

Lemma generate_scenarios_zero_demand_witness :
  exists a g',
    generate_scenarios [one; fzero] 2 default_variance_factor example_stream
    = inr (a, g')
    /\ getitem2 a 1 (Z.of_nat 1) = inr fzero.
Proof.
  destruct (generate_scenarios [one; fzero] 2 default_variance_factor
              example_stream) as [e|[a g']] eqn:Hrun;
    [vm_compute in Hrun; discriminate|].
  exists a, g'. split; [reflexivity|].
  exact (generate_scenarios_zero_demand _ _ _ _ _ _ Hrun 1 1%nat
           ltac:(lia) eq_refl).
Defined.

(** X15 on the example file: two scenarios, three customers. *)
Lemma read_dataset_draw_count_witness :
  read_dataset example_text 2 default_variance_factor example_stream
  = inr (example_data, mk_gauss_stream (variates example_stream) 6)
  /\ cursor (mk_gauss_stream (variates example_stream) 6)
     = (cursor example_stream
        + length (Data.S example_data) * length (Data.I example_data))%nat.
Proof.
  assert (read_dataset example_text 2 default_variance_factor example_stream
          = inr (example_data, mk_gauss_stream (variates example_stream) 6))
    as Hrun by (vm_compute; reflexivity).
  split; [exact Hrun|].
  exact (proj2 (read_dataset_draw_count _ _ _ _ _ _ Hrun)).
Defined.

(** The run of [read_dataset] the script makes on the example file. *)
Lemma example_run_10 :
  read_dataset example_text default_num_scenarios default_variance_factor
    example_stream
  = inr (example_data_10, mk_gauss_stream (variates example_stream) 30).
Proof. vm_compute. reflexivity. Qed.

Lemma example_solution_eq :
  example_solver example_data_10
    (mk_gauss_stream (variates example_stream) 30)
  = inr ((example_solution, example_data_10),
         mk_gauss_stream (variates example_stream) 30).
Proof. reflexivity. Qed.

Lemma example_solution_covers :
  covers (num_cuts_mip example_solution) (Data.S example_data_10)
  /\ covers (num_cuts_rel example_solution) (Data.S example_data_10).
Proof.
  split; intros s Hs; cbn in Hs;
    repeat (destruct Hs as [<-|Hs]; [eexists; vm_compute; reflexivity|]);
    destruct Hs.
Qed.

Lemma example_solution_indexes :
  indexes (locations example_solution) (Data.J example_data_10).
Proof.
  intros j Hj. cbn in Hj.
  repeat (destruct Hj as [<-|Hj]; [vm_compute; split; congruence|]).
  destruct Hj.
Qed.

(** X16 on the example file and solver. *)
Lemma main_completes_witness :
  exists r,
    main example_solver example_text example_stream
    = inr (r, mk_gauss_stream (variates example_stream) 30)
    /\ run_data r = example_data_10
    /\ printed_open_facilities (run_report r) = [0; 1]
    /\ printed_cuts (run_report r) = 1
    /\ printed_cuts_at_node_relaxation (run_report r) = 1.
Proof.
  eexists. split.
  - exact (main_completes example_solver example_text example_stream
             example_data_10 _ example_solution example_data_10 _
             example_run_10 example_solution_eq example_solution_indexes
             (proj1 example_solution_covers) (proj2 example_solution_covers)).
  - repeat split; vm_compute; reflexivity.
Defined.

(** X17 on the example file and solver. *)
Lemma main_completes_only_if_witness :
  exists r g',
    main example_solver example_text example_stream = inr (r, g')
    /\ indexes (locations (run_solution r)) (Data.J (run_data r))
    /\ covers (num_cuts_mip (run_solution r)) (Data.S (run_data r))
    /\ covers (num_cuts_rel (run_solution r)) (Data.S (run_data r))
    /\ (length (Data.J (run_data r))
        <= length (locations (run_solution r)))%nat.
Proof.
  destruct (main example_solver example_text example_stream)
    as [e|[r g']] eqn:Hrun; [vm_compute in Hrun; discriminate|].
  exists r, g'. split; [reflexivity|].
  destruct (main_completes_only_if _ _ _ _ _ Hrun)
    as (Hloc & Hmip & Hrel & Hlen).
  split; [exact Hloc|]. split; [exact Hmip|]. split; [exact Hrel|].
  exact (Hlen (solver_read_only _ _)).
Defined.

(** X18 on the example file. *)
Lemma shipment_costs_round_trip_witness :
  read_dataset example_text 2 default_variance_factor example_stream
  = inr (example_data, mk_gauss_stream (variates example_stream) 6)
  /\ exists m n,
       header (word_reader example_text) = Some (m, n)
       /\ shape (transpose (Data.shipment_costs example_data))
          = [length (Data.J example_data); length (Data.I example_data)]
       /\ mapR float_of_str
            (firstn (range_len (m * n))
               (skipn (2 + 2 * range_len m + range_len n)
                  (word_reader example_text)))
          = inr (flat (transpose (Data.shipment_costs example_data))).
Proof.
  assert (read_dataset example_text 2 default_variance_factor example_stream
          = inr (example_data, mk_gauss_stream (variates example_stream) 6))
    as Hrun by (vm_compute; reflexivity).
  split; [exact Hrun|].
  exact (shipment_costs_round_trip _ _ _ _ _ _ Hrun).
Defined.

(** X19 on a file that declares nothing and goes on. *)
Lemma read_dataset_empty_instance_witness :
  header (word_reader nothing_text) = Some (0, 0)
  /\ 1 <= 3
  /\ read_dataset nothing_text 3 default_variance_factor example_stream
     = inr (Data.mk [] [] (arange 3) [] (mk_ndarray [3%nat; 0%nat] [])
              (mk_int_array float64 []) (mk_int_array float64 [])
              (mk_ndarray [0%nat; 0%nat] []) fzero,
            example_stream).
Proof.
  assert (header (word_reader nothing_text) = Some (0, 0)) as Hh
    by (vm_compute; reflexivity).
  assert (1 <= 3) as Hk by lia.
  split; [exact Hh|]. split; [exact Hk|].
  exact (read_dataset_empty_instance nothing_text 3 default_variance_factor
           example_stream Hh Hk).
Defined.
